(** * The PTY bridge (src/pty/pty_bridge.py)

    A shallow embedding of the bridge's control-frame decoder, its event loop
    and its exit-status mapping, with the operating system as an explicit
    environment and every system call recorded in a trace.

    Conventions.
    - Python integers are [Z]; a [bytearray]/[bytes] value is a [list byte].
    - Program variables of [main] that change ([incoming], [should_close], the
      selector's registrations) live in a [state] record, together with the
      trace of system calls made so far.
    - Python control flow ([break], [continue], [return], a raised exception)
      is an [outcome]; the loops interpret these the way Python does.
    - [while True] is run with a pass budget; [OutOfFuel] says the budget ran
      out while the loop was still going.
    - [os.read] and [os.kill] may raise (the source has handlers for them);
      [os.write], [fcntl.ioctl], [os.waitpid] and [selector.select] are taken
      to succeed.
    - The start-up code of [main] (argument check, [pty.fork], registration
      of the two descriptors) is present only as [initial_state]. *)

From Stdlib Require Import ZArith List Bool Lia.
From Stdlib.Strings Require Import Byte.
From Stdlib.Strings Require String.
Import ListNotations.
Local Open Scope Z_scope.

(** ** Bytes, slices and [struct] *)

Definition bytes := list byte.

Definition byte_val (b : byte) : Z := Z.of_N (Byte.to_N b).

Definition len {A} (l : list A) : Z := Z.of_nat (length l).

(** [l[lo:hi]] for [0 <= lo <= hi]. *)
Definition slice {A} (lo hi : Z) (l : list A) : list A :=
  firstn (Z.to_nat (hi - lo)) (skipn (Z.to_nat lo) l).

(** [del l[:n]] for [0 <= n]. *)
Definition del_prefix {A} (n : Z) (l : list A) : list A := skipn (Z.to_nat n) l.

(** Big-endian unsigned value of a byte string. *)
Definition be_uint (bs : bytes) : Z :=
  fold_left (fun acc b => acc * 256 + byte_val b) bs 0.

Inductive exn :=
| OSError
| ProcessLookupError
| PermissionError
| StructError
| KeyError.

(** [isinstance(e, cls)] on the part of the exception hierarchy in use:
    [ProcessLookupError] and [PermissionError] derive from [OSError]. *)
Definition isinstance (e cls : exn) : bool :=
  match cls, e with
  | OSError, (OSError | ProcessLookupError | PermissionError) => true
  | ProcessLookupError, ProcessLookupError => true
  | PermissionError, PermissionError => true
  | StructError, StructError => true
  | KeyError, KeyError => true
  | _, _ => false
  end.

(** [struct.unpack(">I", bs)[0]]: needs exactly four bytes. *)
Definition unpack_I (bs : bytes) : option Z :=
  match bs with
  | [_; _; _; _] => Some (be_uint bs)
  | _ => None
  end.

(** [struct.unpack(">HH", bs)]: needs exactly four bytes. *)
Definition unpack_HH (bs : bytes) : option (Z * Z) :=
  match bs with
  | [a; b; c; d] => Some (be_uint [a; b], be_uint [c; d])
  | _ => None
  end.

(** The argument of the TIOCSWINSZ request: the four unsigned shorts of the
    kernel's window-size structure, in declaration order. *)
Record winsize := mk_winsize {
  ws_row : Z;
  ws_col : Z;
  ws_xpixel : Z;
  ws_ypixel : Z
}.

Definition is_ushort (v : Z) : bool := (0 <=? v) && (v <=? 65535).

(** [struct.pack("HHHH", a, b, c, d)]: four native unsigned shorts; a value
    out of range is a [struct.error]. *)
Definition pack_HHHH (a b c d : Z) : option winsize :=
  if is_ushort a && is_ushort b && is_ushort c && is_ushort d
  then Some (mk_winsize a b c d)
  else None.

Definition OPCODE_DATA : Z := 0x01.
Definition OPCODE_RESIZE : Z := 0x02.
Definition OPCODE_CLOSE : Z := 0x03.

(** ** Wait statuses *)

(** The status macros of the [os] module; their bit layout belongs to the
    platform, not to the bridge. *)
Class WaitMacros := {
  WIFEXITED : Z -> bool;
  WEXITSTATUS : Z -> Z;
  WIFSIGNALED : Z -> bool;
  WTERMSIG : Z -> Z
}.

Definition _exit_code_from_status `{WaitMacros} (status : Z) : Z :=
  if WIFEXITED status then WEXITSTATUS status
  else if WIFSIGNALED status then 128 + WTERMSIG status
  else 1.

(** The layout used by Linux: low seven bits hold the terminating signal,
    bits 8..15 the exit code. *)
Definition signed_char (v : Z) : Z :=
  let w := v mod 256 in if w <? 128 then w else w - 256.

Definition LinuxWait : WaitMacros := {|
  WIFEXITED := fun s => Z.land s 0x7f =? 0;
  WEXITSTATUS := fun s => Z.shiftr (Z.land s 0xff00) 8;
  WIFSIGNALED := fun s => 0 <? Z.shiftr (signed_char (Z.land s 0x7f + 1)) 1;
  WTERMSIG := fun s => Z.land s 0x7f
|}.

(** A status is well formed when at most one of the two tests holds. *)
Definition status_exclusive `{WaitMacros} (status : Z) : Prop :=
  WIFEXITED status = true -> WIFSIGNALED status = false.

(** ** The operating system *)

(** What a selector key carries in its [data] field: ["stdin"] or ["pty"]. *)
Inductive Key := KStdin | KPty.

Definition Key_eqb (a b : Key) : bool :=
  match a, b with
  | KStdin, KStdin | KPty, KPty => true
  | _, _ => false
  end.

(** Which of the two descriptors the kernel reports readable, in the order
    the selector lists them; a descriptor is listed at most once. *)
Inductive readiness :=
| ReadyNone
| ReadyStdin
| ReadyPty
| ReadyStdinPty
| ReadyPtyStdin.

Definition ready_keys (r : readiness) : list Key :=
  match r with
  | ReadyNone => []
  | ReadyStdin => [KStdin]
  | ReadyPty => [KPty]
  | ReadyStdinPty => [KStdin; KPty]
  | ReadyPtyStdin => [KPty; KStdin]
  end.

Inductive signal := SIGHUP | SIGWINCH.

Inductive ioctl_request := TIOCSWINSZ.

Definition WNOHANG : Z := 1.

(** One system call, with what it was given and what it answered. *)
Inductive event :=
| EvSelect (watched ready : list Key)
| EvRead (fd n : Z) (r : exn + bytes)
| EvWrite (fd : Z) (data : bytes)
| EvIoctl (fd : Z) (request : ioctl_request) (arg : winsize)
| EvKill (pid : Z) (sig : signal) (r : option exn)
| EvWaitpid (pid options : Z) (r : Z * Z).

(** The environment answers each call from the history of calls so far, so
    any run of the kernel and of the child is some [Env]. *)
Record Env := {
  env_ready : list event -> readiness;
  env_read : list event -> Z -> Z -> exn + bytes;
  env_kill : list event -> Z -> signal -> option exn;
  (** status with which a blocking wait returns *)
  env_wait : list event -> Z;
  (** status found by a non-blocking poll, if the child has exited *)
  env_poll : list event -> option Z
}.

(** ** Program state and control flow *)

Record state := mk_state {
  incoming : bytes;
  should_close : bool;
  registered : list Key;
  trace : list event
}.

Definition set_incoming (v : bytes) (s : state) : state :=
  mk_state v (should_close s) (registered s) (trace s).

Definition set_should_close (v : bool) (s : state) : state :=
  mk_state (incoming s) v (registered s) (trace s).

Definition set_registered (v : list Key) (s : state) : state :=
  mk_state (incoming s) (should_close s) v (trace s).

Definition log (e : event) (s : state) : state :=
  mk_state (incoming s) (should_close s) (registered s) (trace s ++ [e]).

Inductive outcome (A : Type) :=
| Normal (a : A)
| Break
| Continue
| Return (code : Z)
| Raise (e : exn)
| OutOfFuel.

Arguments Normal {A} a.
Arguments Break {A}.
Arguments Continue {A}.
Arguments Return {A} code.
Arguments Raise {A} e.
Arguments OutOfFuel {A}.

Definition M (A : Type) : Type := state -> state * outcome A.

Definition ret {A} (a : A) : M A := fun s => (s, Normal a).

Definition bind {A B} (m : M A) (k : A -> M B) : M B :=
  fun s =>
    match m s with
    | (s', Normal a) => k a s'
    | (s', Break) => (s', Break)
    | (s', Continue) => (s', Continue)
    | (s', Return c) => (s', Return c)
    | (s', Raise e) => (s', Raise e)
    | (s', OutOfFuel) => (s', OutOfFuel)
    end.

Notation "x <- m ;; k" := (bind m (fun x => k))
  (at level 61, m at next level, right associativity).
Notation "m ;;; k" := (bind m (fun _ => k))
  (at level 61, right associativity).

Definition break_ {A} : M A := fun s => (s, Break).
Definition continue_ {A} : M A := fun s => (s, Continue).
Definition return_ {A} (code : Z) : M A := fun s => (s, Return code).
Definition raise {A} (e : exn) : M A := fun s => (s, Raise e).
Definition get : M state := fun s => (s, Normal s).
Definition modify (f : state -> state) : M unit := fun s => (f s, Normal tt).

(** [try: body / except cls: handler] *)
Definition try_except {A} (body : M A) (cls : exn) (handler : M A) : M A :=
  fun s =>
    match body s with
    | (s', Raise e) => if isinstance e cls then handler s' else (s', Raise e)
    | r => r
    end.

(** [while True: body], run for at most [fuel] passes. *)
Fixpoint while_true (fuel : nat) (body : M unit) : M unit :=
  fun s =>
    match fuel with
    | O => (s, OutOfFuel)
    | S fuel' =>
        match body s with
        | (s', Normal _) => while_true fuel' body s'
        | (s', Continue) => while_true fuel' body s'
        | (s', Break) => (s', Normal tt)
        | (s', Return c) => (s', Return c)
        | (s', Raise e) => (s', Raise e)
        | (s', OutOfFuel) => (s', OutOfFuel)
        end
    end.

(** [for k in items: body k] *)
Fixpoint for_each {K} (items : list K) (body : K -> M unit) : M unit :=
  fun s =>
    match items with
    | [] => (s, Normal tt)
    | k :: rest =>
        match body k s with
        | (s', Normal _) => for_each rest body s'
        | (s', Continue) => for_each rest body s'
        | (s', Break) => (s', Normal tt)
        | (s', Return c) => (s', Return c)
        | (s', Raise e) => (s', Raise e)
        | (s', OutOfFuel) => (s', OutOfFuel)
        end
    end.

(** Python truthiness of a byte string. *)
Definition truthy (b : bytes) : bool := negb (len b =? 0).

(** The state on entry to the loop (lines 38-45). *)
Definition initial_state : state := mk_state [] false [KStdin; KPty] [].

(** ** Concrete environments and states *)

(** An environment that always gives the same answers: the control input is
    descriptor 0, anything else is the PTY master. *)
Definition const_env (ready : readiness) (stdin_chunk : bytes)
           (pty_read : exn + bytes) (kill_result : option exn)
           (wait_status : Z) (poll : option Z) : Env :=
  {| env_ready := fun _ => ready;
     env_read := fun _ fd _ => if fd =? 0 then inr stdin_chunk else pty_read;
     env_kill := fun _ _ _ => kill_result;
     env_wait := fun _ => wait_status;
     env_poll := fun _ => poll |}.

Definition reads_of (fd : Z) (t : list event) : nat :=
  length (filter (fun e => match e with
                           | EvRead fd' _ _ => fd' =? fd
                           | _ => false
                           end) t).

(** An environment whose control input delivers [chunks] one read after the
    other, and whose PTY master stays silent. *)
Definition chunked_env (chunks : list bytes) : Env :=
  {| env_ready := fun _ => ReadyStdin;
     env_read := fun t fd _ =>
                   if fd =? 0 then inr (nth (reads_of 0 t) chunks [])
                   else inr [];
     env_kill := fun _ _ _ => None;
     env_wait := fun _ => 0;
     env_poll := fun _ => None |}.

Definition quiet_env : Env :=
  const_env ReadyStdin [] (inr []) None 0 None.

Definition with_incoming (buffer : bytes) : state :=
  mk_state buffer false [KStdin; KPty] [].

Definition close_env : Env :=
  const_env ReadyStdin [x03; x03] (inr []) None 0 None.

Definition pty_error_env : Env :=
  const_env ReadyPty [] (inl OSError) None 9 None.

Definition pty_only_env : Env :=
  const_env ReadyStdinPty [] (inr [x68; x69]) None 0 None.

Definition dead_child_env : Env :=
  const_env ReadyStdin [x02; x00; x50; x00; x18] (inr [])
            (Some ProcessLookupError) 0 None.

(** ** The bridge *)

Section Bridge.

Context (env : Env) {macros : WaitMacros}.
Variables child_pid master_fd stdin_fd stdout_fd : Z.

(** *** System calls *)

Definition os_read (fd n : Z) : M bytes :=
  fun s =>
    let r := env_read env (trace s) fd n in
    let s' := log (EvRead fd n r) s in
    match r with
    | inl e => (s', Raise e)
    | inr data => (s', Normal data)
    end.

Definition os_write (fd : Z) (data : bytes) : M unit :=
  modify (log (EvWrite fd data)).

Definition fcntl_ioctl (fd : Z) (request : ioctl_request) (arg : winsize)
  : M unit :=
  modify (log (EvIoctl fd request arg)).

Definition os_kill (pid : Z) (sig : signal) : M unit :=
  fun s =>
    let r := env_kill env (trace s) pid sig in
    let s' := log (EvKill pid sig r) s in
    match r with
    | Some e => (s', Raise e)
    | None => (s', Normal tt)
    end.

(** [os.waitpid(pid, options)]: with [WNOHANG] the answer is [(0, 0)] while
    the child is still running. *)
Definition os_waitpid (pid options : Z) : M (Z * Z) :=
  fun s =>
    let r :=
      if options =? WNOHANG then
        match env_poll env (trace s) with
        | Some status => (pid, status)
        | None => (0, 0)
        end
      else (pid, env_wait env (trace s)) in
    (log (EvWaitpid pid options r) s, Normal r).

Definition is_registered (k : Key) (s : state) : bool :=
  existsb (Key_eqb k) (registered s).

(** [selector.select(timeout=0.05)]: the registered keys that are readable. *)
Definition selector_select : M (list Key) :=
  fun s =>
    let keys :=
      filter (fun k => is_registered k s)
             (ready_keys (env_ready env (trace s))) in
    (log (EvSelect (registered s) keys) s, Normal keys).

(** [selector.unregister(fd)]: a [KeyError] when [fd] is not registered. *)
Definition selector_unregister (k : Key) : M unit :=
  fun s =>
    if is_registered k s
    then (set_registered
            (filter (fun k' => negb (Key_eqb k k')) (registered s)) s,
          Normal tt)
    else (s, Raise KeyError).

(** *** [_set_winsize] *)

Definition _set_winsize (fd cols rows : Z) : M unit :=
  match pack_HHHH rows cols 0 0 with
  | Some winsize => fcntl_ioctl fd TIOCSWINSZ winsize
  | None => raise StructError
  end.

(** *** The body of the inner [while True] (lines 57-82)

    The [[]] branch is [if len(incoming) < 1: break]; otherwise [opcode] is
    [incoming[0]]. *)
Definition decode_pass : M unit :=
  s <- get ;;
  match incoming s with
  | [] => break_
  | opcode :: _ =>
      if byte_val opcode =? OPCODE_DATA then
        if len (incoming s) <? 5 then break_
        else
          match unpack_I (slice 1 5 (incoming s)) with
          | None => raise StructError
          | Some size =>
              if len (incoming s) <? 5 + size then break_
              else
                let payload := slice 5 (5 + size) (incoming s) in
                modify (set_incoming (del_prefix (5 + size) (incoming s))) ;;;
                if truthy payload then os_write master_fd payload
                else ret tt
          end
      else if byte_val opcode =? OPCODE_RESIZE then
        if len (incoming s) <? 5 then break_
        else
          match unpack_HH (slice 1 5 (incoming s)) with
          | None => raise StructError
          | Some (cols, rows) =>
              modify (set_incoming (del_prefix 5 (incoming s))) ;;;
              _set_winsize master_fd cols rows ;;;
              os_kill child_pid SIGWINCH
          end
      else if byte_val opcode =? OPCODE_CLOSE then
        modify (set_incoming (del_prefix 1 (incoming s))) ;;;
        modify (set_should_close true)
      else
        modify (set_incoming (del_prefix 1 (incoming s)))
  end.

(** The inner loop; a budget of one pass more than the buffer has bytes is
    enough ([decode_loop_terminates]). *)
Definition decode_loop : M unit :=
  s <- get ;;
  while_true (S (length (incoming s))) decode_pass.

(** [incoming.extend(chunk)] followed by the inner loop (lines 55-82). *)
Definition feed (chunk : bytes) : M unit :=
  modify (fun s => set_incoming (incoming s ++ chunk) s) ;;;
  decode_loop.

(** *** The body of the [for] loop (lines 49-94) *)

Definition on_stdin : M unit :=
  chunk <- os_read stdin_fd 65536 ;;
  if truthy chunk then feed chunk
  else selector_unregister KStdin ;;; continue_.

Definition on_pty : M unit :=
  data <- try_except (os_read master_fd 65536) OSError (ret []) ;;
  if truthy data then os_write stdout_fd data
  else
    r <- os_waitpid child_pid 0 ;;
    return_ (_exit_code_from_status (snd r)).

Definition handle_key (key : Key) : M unit :=
  (if Key_eqb key KStdin then on_stdin else ret tt) ;;;
  (if Key_eqb key KPty then on_pty else ret tt).

(** *** One iteration of the outer [while True] (lines 48-105) *)

Definition read_phase : M unit :=
  keys <- selector_select ;;
  for_each keys handle_key.

Definition close_phase : M unit :=
  s <- get ;;
  if should_close s then
    try_except (os_kill child_pid SIGHUP) ProcessLookupError (ret tt) ;;;
    modify (set_should_close false)
  else ret tt.

Definition reap_phase : M unit :=
  r <- os_waitpid child_pid WNOHANG ;;
  if fst r =? child_pid then return_ (_exit_code_from_status (snd r))
  else ret tt.

Definition loop_body : M unit :=
  read_phase ;;; close_phase ;;; reap_phase.

(** The outer loop, run for at most [n] iterations: [OutOfFuel] means it is
    still running after [n] of them. *)
Definition main_loop (n : nat) : M unit := while_true n loop_body.

(** ** The wire format as the specification words it

    [decode_next] and [dispatch] follow the grammar table and the dispatch
    rules of the design document; [decode_pass_refines] compares them with
    [decode_pass], which follows the source. *)

Inductive Frame :=
| Data (payload : bytes)
| Resize (cols rows : Z)
| Close.

Inductive decoded :=
| NeedMoreBytes
| Decoded (f : Frame) (rest : bytes)
| Resync (rest : bytes).

Definition decode_next (buffer : bytes) : decoded :=
  match buffer with
  | [] => NeedMoreBytes
  | op :: body =>
      if byte_val op =? 0x01 then
        match body with
        | n1 :: n2 :: n3 :: n4 :: tl =>
            let n := be_uint [n1; n2; n3; n4] in
            if len tl <? n then NeedMoreBytes
            else Decoded (Data (firstn (Z.to_nat n) tl)) (skipn (Z.to_nat n) tl)
        | _ => NeedMoreBytes
        end
      else if byte_val op =? 0x02 then
        match body with
        | c1 :: c2 :: r1 :: r2 :: tl =>
            Decoded (Resize (be_uint [c1; c2]) (be_uint [r1; r2])) tl
        | _ => NeedMoreBytes
        end
      else if byte_val op =? 0x03 then Decoded Close body
      else Resync body
  end.

Definition dispatch (f : Frame) : M unit :=
  match f with
  | Data payload =>
      if truthy payload then os_write master_fd payload else ret tt
  | Resize cols rows =>
      _set_winsize master_fd cols rows ;;; os_kill child_pid SIGWINCH
  | Close => modify (set_should_close true)
  end.

(** The frames the decoder yields from a buffer within [fuel] calls. *)
Fixpoint frames_upto (fuel : nat) (buffer : bytes) : list Frame :=
  match fuel with
  | O => []
  | S fuel' =>
      match decode_next buffer with
      | NeedMoreBytes => []
      | Decoded f rest => f :: frames_upto fuel' rest
      | Resync rest => frames_upto fuel' rest
      end
  end.

Definition frames (buffer : bytes) : list Frame :=
  frames_upto (S (length buffer)) buffer.

Definition is_close (f : Frame) : bool :=
  match f with Close => true | _ => false end.

Definition count_close (fs : list Frame) : nat :=
  length (filter is_close fs).

(** ** Observations on traces *)

Definition is_sighup (e : event) : bool :=
  match e with
  | EvKill _ SIGHUP _ => true
  | _ => false
  end.

(** Number of hangup deliveries in a trace. *)
Definition sighups (t : list event) : nat := length (filter is_sighup t).


(** Passes of [body] that [while_true fuel body] runs from [s]. *)
Fixpoint while_passes (fuel : nat) (body : M unit) (s : state) : nat :=
  match fuel with
  | O => O
  | S fuel' =>
      match body s with
      | (s', Normal _) => S (while_passes fuel' body s')
      | (s', Continue) => S (while_passes fuel' body s')
      | _ => 1%nat
      end
  end.

(** What the dispatch of a frame may ask of the system. *)
Definition frame_event (e : event) : Prop :=
  match e with
  | EvWrite fd _ => fd = master_fd
  | EvIoctl fd _ _ => fd = master_fd
  | EvKill pid SIGWINCH _ => pid = child_pid
  | _ => False
  end.

Definition completes (o : outcome unit) : Prop :=
  o = Normal tt \/ exists e, o = Raise e.

(** The inner loop from a given state. *)
Definition decode_run (s : state) : state * outcome unit :=
  while_true (S (length (incoming s))) decode_pass s.

(** The state with [chunk] appended to the buffer. *)
Definition extend (chunk : bytes) (s : state) : state :=
  set_incoming (incoming s ++ chunk) s.

(** A buffer that starts with a known opcode and is shorter than the frame
    that opcode announces. *)
Definition frame_incomplete (buffer : bytes) : Prop :=
  match buffer with
  | [] => False
  | op :: _ =>
      (byte_val op = OPCODE_DATA
       /\ (len buffer < 5 \/ len buffer < 5 + be_uint (slice 1 5 buffer)))
      \/ (byte_val op = OPCODE_RESIZE /\ len buffer < 5)
      \/ (byte_val op = OPCODE_CLOSE /\ len buffer < 1)
  end.

(** [s'] has the trace of [s] followed by events that all satisfy [P]. *)
Definition grows_by (P : event -> Prop) (s s' : state) : Prop :=
  exists evs, trace s' = trace s ++ evs /\ Forall P evs.

(** From a state in [I], the computation ends in [I], whatever its outcome,
    and only adds events that satisfy [P]. *)
Definition preserves {A} (I : state -> Prop) (P : event -> Prop) (m : M A)
  : Prop :=
  forall s s' o, I s -> m s = (s', o) -> I s' /\ grows_by P s s'.

Definition no_sighup (e : event) : Prop := is_sighup e = false.


(** ** The program around the loop, and further observations *)

(** [main] as the parent process runs it (lines 29-105): without a command
    it returns 2 before anything is created; otherwise it enters the loop in
    [initial_state], with [child_pid] and [master_fd] the result of
    [pty.fork]. The child's side of the fork is another process. *)
Definition main (argv : list String.string) (n : nat) : state * outcome unit :=
  if len argv <? 2 then (mk_state [] false [] [], Return 2)
  else main_loop n initial_state.

(** A system call on the bridge's own descriptors or on its own child. *)
Definition scoped (e : event) : Prop :=
  match e with
  | EvSelect _ _ => True
  | EvRead fd n _ => (fd = stdin_fd \/ fd = master_fd) /\ n = 65536
  | EvWrite fd _ => fd = master_fd \/ fd = stdout_fd
  | EvIoctl fd _ _ => fd = master_fd
  | EvKill pid _ _ => pid = child_pid
  | EvWaitpid pid _ _ => pid = child_pid
  end.

(** The byte strings written to descriptor [fd], in order. *)
Definition writes_to (fd : Z) (t : list event) : list bytes :=
  flat_map (fun e => match e with
                     | EvWrite fd' data => if fd' =? fd then [data] else []
                     | _ => []
                     end) t.

(** The non-empty byte strings successfully read from [fd], in order. *)
Definition data_read_from (fd : Z) (t : list event) : list bytes :=
  flat_map (fun e => match e with
                     | EvRead fd' _ (inr data) =>
                         if (fd' =? fd) && truthy data then [data] else []
                     | _ => []
                     end) t.

(** Everything read from the PTY master so far has been written out. *)
Definition forwarded (s : state) : Prop :=
  writes_to stdout_fd (trace s) = data_read_from master_fd (trace s).

(** A header and a payload that make a DATA frame. *)
Definition well_framed (hp : bytes * bytes) : Prop :=
  length (fst hp) = 4%nat /\ be_uint (fst hp) = len (snd hp).

(** The bytes of a sequence of DATA frames. *)
Definition data_frames (fs : list (bytes * bytes)) : bytes :=
  flat_map (fun hp => x01 :: fst hp ++ snd hp) fs.

(** Where an exception that leaves the loop comes from: the last system call
    is a read or a signal that raised it, and no handler matches. *)
Definition fault_origin (e : exn) (t : list event) : Prop :=
  exists t0 ev,
    t = t0 ++ [ev]
    /\ match ev with
       | EvRead fd n (inl e') =>
           e' = e /\ n = 65536
           /\ (fd = stdin_fd \/ (fd = master_fd /\ isinstance e OSError = false))
       | EvKill pid SIGWINCH (Some e') => e' = e /\ pid = child_pid
       | EvKill pid SIGHUP (Some e') =>
           e' = e /\ pid = child_pid
           /\ isinstance e ProcessLookupError = false
       | _ => False
       end.

(** Where a returned exit code comes from: the last system call is a wait
    that reaped the child, and the code is its mapped status. *)
Definition return_origin (code : Z) (t : list event) : Prop :=
  exists t0 options status,
    t = t0 ++ [EvWaitpid child_pid options (child_pid, status)]
    /\ code = _exit_code_from_status status.

(** What holds of the final state when a computation ends abruptly. *)
Definition abrupt_origin {A} (o : outcome A) (s : state) : Prop :=
  match o with
  | Return c => return_origin c (trace s)
  | Raise e => fault_origin e (trace s)
  | _ => True
  end.

Definition traced {A} (m : M A) : Prop :=
  forall s s' o, m s = (s', o) -> abrupt_origin o s'.

(** An event that is neither a write to the output nor a non-empty read of
    the PTY master. *)
Definition pty_neutral (e : event) : Prop :=
  writes_to stdout_fd [e] = [] /\ data_read_from master_fd [e] = [].

(** ** Observations for runs of several iterations *)




(** The buffer the decoder leaves after taking every complete frame. *)
Fixpoint rest_upto (fuel : nat) (buffer : bytes) : bytes :=
  match fuel with
  | O => buffer
  | S fuel' =>
      match decode_next buffer with
      | NeedMoreBytes => buffer
      | Decoded _ rest => rest_upto fuel' rest
      | Resync rest => rest_upto fuel' rest
      end
  end.

Definition rest_of (buffer : bytes) : bytes :=
  rest_upto (S (length buffer)) buffer.

(** What dispatching frames asks of the PTY master: a write per non-empty
    payload, a window-size request per RESIZE. *)
Definition frame_effects (fs : list Frame) : list event :=
  flat_map (fun f => match f with
                     | Data payload =>
                         if truthy payload then [EvWrite master_fd payload]
                         else []
                     | Resize cols rows =>
                         [EvIoctl master_fd TIOCSWINSZ
                                  (mk_winsize rows cols 0 0)]
                     | Close => []
                     end) fs.

(** The writes to the PTY master and the window-size requests of a trace. *)
Definition master_effects (t : list event) : list event :=
  filter (fun e => match e with
                   | EvWrite fd _ => fd =? master_fd
                   | EvIoctl _ _ _ => true
                   | _ => false
                   end) t.

(** All bytes read from the control input so far, as one stream. *)
Definition control_stream (t : list event) : bytes :=
  concat (data_read_from stdin_fd t).

(** Buffer and PTY-master effects are those of the control stream read so
    far, whatever the reads that delivered it. *)
Definition in_step (s : state) : Prop :=
  incoming s = rest_of (control_stream (trace s))
  /\ master_effects (trace s)
     = frame_effects (frames (control_stream (trace s))).

(** An event that adds nothing to the control stream and asks nothing of
    the PTY master. *)
Definition stream_neutral (e : event) : Prop :=
  master_effects [e] = [] /\ data_read_from stdin_fd [e] = [].

(** [m] takes a state in [J] to a state in [J] unless it raises. *)
Definition keeps {A} (J : state -> Prop) (m : M A) : Prop :=
  forall s s' o, J s -> m s = (s', o) -> (forall e, o <> Raise e) -> J s'.

(** The environment answers some read or signal with exception [e]. *)
Definition env_raises (e : exn) : Prop :=
  (exists t fd n, env_read env t fd n = inl e)
  \/ (exists t pid sig, env_kill env t pid sig = Some e).

(** Every exception [m] ends with was the environment's answer. *)
Definition answered {A} (m : M A) : Prop :=
  forall s s' e, m s = (s', Raise e) -> env_raises e.

(** ** Basic facts *)

Lemma byte_val_range (b : byte) : 0 <= byte_val b <= 255.
Proof.
  unfold byte_val. pose proof (Byte.to_N_bounded b). lia.
Qed.

Lemma be_uint_fold_nonneg (bs : bytes) (acc : Z) :
  0 <= acc -> 0 <= fold_left (fun a b => a * 256 + byte_val b) bs acc.
Proof.
  revert acc. induction bs as [|b bs IH]; intros acc Hacc; simpl.
  - exact Hacc.
  - apply IH. pose proof (byte_val_range b). lia.
Qed.

Lemma be_uint_nonneg (bs : bytes) : 0 <= be_uint bs.
Proof. unfold be_uint. apply be_uint_fold_nonneg. lia. Qed.

Lemma be_uint2_range (a b : byte) : 0 <= be_uint [a; b] <= 65535.
Proof.
  unfold be_uint. simpl.
  pose proof (byte_val_range a). pose proof (byte_val_range b). lia.
Qed.

Lemma be_uint4_range (a b c d : byte) : 0 <= be_uint [a; b; c; d] < 2 ^ 32.
Proof.
  unfold be_uint. simpl.
  pose proof (byte_val_range a). pose proof (byte_val_range b).
  pose proof (byte_val_range c). pose proof (byte_val_range d). lia.
Qed.

Lemma len_cons {A} (x : A) (l : list A) : len (x :: l) = 1 + len l.
Proof. unfold len. simpl length. lia. Qed.

Lemma len_nonneg {A} (l : list A) : 0 <= len l.
Proof. unfold len. lia. Qed.

Lemma len_app {A} (l1 l2 : list A) : len (l1 ++ l2) = len l1 + len l2.
Proof. unfold len. rewrite length_app. lia. Qed.

Lemma truthy_nil : truthy [] = false.
Proof. reflexivity. Qed.

Lemma truthy_cons (b : byte) (l : bytes) : truthy (b :: l) = true.
Proof.
  unfold truthy. rewrite len_cons. pose proof (len_nonneg l).
  destruct (Z.eqb_spec (1 + len l) 0); [lia | reflexivity].
Qed.

Lemma truthy_iff (l : bytes) : truthy l = true <-> l <> [].
Proof.
  destruct l as [|b l].
  - rewrite truthy_nil. split; [discriminate | congruence].
  - rewrite truthy_cons. split; [discriminate | reflexivity].
Qed.

Lemma pack_HHHH_ushort (rows cols : Z) :
  0 <= rows <= 65535 -> 0 <= cols <= 65535 ->
  pack_HHHH rows cols 0 0 = Some (mk_winsize rows cols 0 0).
Proof.
  intros Hr Hc. unfold pack_HHHH, is_ushort.
  replace (0 <=? rows) with true by (symmetry; apply Z.leb_le; lia).
  replace (rows <=? 65535) with true by (symmetry; apply Z.leb_le; lia).
  replace (0 <=? cols) with true by (symmetry; apply Z.leb_le; lia).
  replace (cols <=? 65535) with true by (symmetry; apply Z.leb_le; lia).
  reflexivity.
Qed.

(** ** The source's pass against the specification's decoder *)

Lemma decode_pass_refines (s : state) :
  decode_pass s =
  match decode_next (incoming s) with
  | NeedMoreBytes => (s, Break)
  | Decoded f rest => dispatch f (set_incoming rest s)
  | Resync rest => (set_incoming rest s, Normal tt)
  end.
Proof.
  unfold decode_pass, decode_next, bind, get.
  destruct (incoming s) as [|op body] eqn:Hin; [reflexivity|].
  cbv beta iota.
  change OPCODE_DATA with 1. change OPCODE_RESIZE with 2.
  change OPCODE_CLOSE with 3.
  destruct (byte_val op =? 1).
  - destruct body as [|n1 [|n2 [|n3 [|n4 tl]]]]; try reflexivity.
    replace (len (op :: n1 :: n2 :: n3 :: n4 :: tl) <? 5) with false
      by (symmetry; apply Z.ltb_ge; rewrite !len_cons;
          pose proof (len_nonneg tl); lia).
    change (slice 1 5 (op :: n1 :: n2 :: n3 :: n4 :: tl))
      with (firstn 4 (n1 :: n2 :: n3 :: n4 :: tl)).
    cbn [firstn unpack_I].
    set (n := be_uint [n1; n2; n3; n4]).
    assert (Hn : 0 <= n) by apply be_uint_nonneg.
    replace (len (op :: n1 :: n2 :: n3 :: n4 :: tl) <? 5 + n)
      with (len tl <? n)
      by (rewrite !len_cons; destruct (Z.ltb_spec (len tl) n);
          symmetry; [apply Z.ltb_lt | apply Z.ltb_ge]; lia).
    destruct (len tl <? n); [reflexivity|].
    assert (Hsl : slice 5 (5 + n) (op :: n1 :: n2 :: n3 :: n4 :: tl)
                  = firstn (Z.to_nat n) tl).
    { unfold slice. replace (5 + n - 5) with n by lia. reflexivity. }
    assert (Hdel : del_prefix (5 + n) (op :: n1 :: n2 :: n3 :: n4 :: tl)
                   = skipn (Z.to_nat n) tl).
    { unfold del_prefix. replace (Z.to_nat (5 + n)) with (5 + Z.to_nat n)%nat
        by lia. reflexivity. }
    cbv zeta. rewrite Hsl, Hdel. unfold modify, dispatch. reflexivity.
  - destruct (byte_val op =? 2).
    + destruct body as [|c1 [|c2 [|r1 [|r2 tl]]]]; try reflexivity.
      replace (len (op :: c1 :: c2 :: r1 :: r2 :: tl) <? 5) with false
        by (symmetry; apply Z.ltb_ge; rewrite !len_cons;
            pose proof (len_nonneg tl); lia).
      reflexivity.
    + destruct (byte_val op =? 3); reflexivity.
Qed.

(** ** The decoder on its own *)

Lemma decode_next_shorter (buffer : bytes) :
  match decode_next buffer with
  | NeedMoreBytes => True
  | Decoded _ rest => (length rest < length buffer)%nat
  | Resync rest => length buffer = S (length rest)
  end.
Proof.
  unfold decode_next. destruct buffer as [|op body]; [exact I|].
  destruct (byte_val op =? 1).
  - destruct body as [|n1 [|n2 [|n3 [|n4 tl]]]]; try exact I.
    cbv zeta. destruct (len tl <? be_uint [n1; n2; n3; n4]); [exact I|].
    rewrite length_skipn. simpl length. lia.
  - destruct (byte_val op =? 2).
    + destruct body as [|c1 [|c2 [|r1 [|r2 tl]]]]; try exact I.
      simpl length. lia.
    + destruct (byte_val op =? 3); simpl length; lia.
Qed.

(** A frame that is complete stays the same frame when more bytes follow. *)
Lemma decode_next_app (buffer more : bytes) :
  match decode_next buffer with
  | NeedMoreBytes => True
  | Decoded f rest => decode_next (buffer ++ more) = Decoded f (rest ++ more)
  | Resync rest => decode_next (buffer ++ more) = Resync (rest ++ more)
  end.
Proof.
  unfold decode_next. destruct buffer as [|op body]; [exact I|].
  rewrite <- app_comm_cons.
  destruct (byte_val op =? 1).
  - destruct body as [|n1 [|n2 [|n3 [|n4 tl]]]]; try exact I.
    rewrite <- !app_comm_cons. cbv zeta.
    set (n := be_uint [n1; n2; n3; n4]).
    destruct (Z.ltb_spec (len tl) n) as [Hlt|Hge]; [exact I|].
    assert (Hn : 0 <= n) by apply be_uint_nonneg.
    replace (len (tl ++ more) <? n) with false
      by (symmetry; apply Z.ltb_ge; rewrite len_app;
          pose proof (len_nonneg more); lia).
    unfold len in Hge.
    rewrite firstn_app, skipn_app.
    replace (Z.to_nat n - length tl)%nat with 0%nat by lia.
    simpl firstn. simpl skipn. rewrite app_nil_r. reflexivity.
  - destruct (byte_val op =? 2).
    + destruct body as [|c1 [|c2 [|r1 [|r2 tl]]]]; try exact I.
      reflexivity.
    + destruct (byte_val op =? 3); reflexivity.
Qed.

Lemma dispatch_cases (f : Frame) (s : state) :
  exists evs o,
    dispatch f s =
      (mk_state (incoming s) (should_close s || is_close f) (registered s)
                (trace s ++ evs), o)
    /\ completes o /\ Forall frame_event evs.
Proof.
  destruct s as [inc sc reg tr]. destruct f as [payload|cols rows|]; simpl.
  - destruct (truthy payload).
    + exists [EvWrite master_fd payload], (Normal tt).
      unfold os_write, modify, log; simpl. rewrite orb_false_r.
      repeat split; [left; reflexivity | repeat constructor].
    + exists [], (Normal tt). unfold ret; simpl.
      rewrite orb_false_r, app_nil_r.
      repeat split; [left; reflexivity | constructor].
  - unfold bind, _set_winsize.
    destruct (pack_HHHH rows cols 0 0) as [ws|].
    + unfold fcntl_ioctl, modify, os_kill, log; simpl.
      rewrite orb_false_r, <- app_assoc. simpl.
      destruct (env_kill env (tr ++ [EvIoctl master_fd TIOCSWINSZ ws])
                         child_pid SIGWINCH) as [e|] eqn:Hk.
      * exists [EvIoctl master_fd TIOCSWINSZ ws;
                EvKill child_pid SIGWINCH (Some e)], (Raise e).
        repeat split; [right; eexists; reflexivity | repeat constructor].
      * exists [EvIoctl master_fd TIOCSWINSZ ws;
                EvKill child_pid SIGWINCH None], (Normal tt).
        repeat split; [left; reflexivity | repeat constructor].
    + exists [], (Raise StructError). unfold raise; simpl.
      rewrite orb_false_r, app_nil_r.
      repeat split; [right; eexists; reflexivity | constructor].
  - exists [], (Normal tt). unfold modify, set_should_close; simpl.
    rewrite orb_true_r, app_nil_r.
    repeat split; [left; reflexivity | constructor].
Qed.

(** One pass either asks for more bytes and changes nothing, or shortens the
    buffer. *)
Lemma decode_pass_cases (s : state) :
  (decode_next (incoming s) = NeedMoreBytes /\ decode_pass s = (s, Break))
  \/ (exists f rest evs o,
        decode_next (incoming s) = Decoded f rest
        /\ (length rest < length (incoming s))%nat
        /\ decode_pass s =
             (mk_state rest (should_close s || is_close f) (registered s)
                       (trace s ++ evs), o)
        /\ completes o /\ Forall frame_event evs)
  \/ (exists rest,
        decode_next (incoming s) = Resync rest
        /\ length (incoming s) = S (length rest)
        /\ decode_pass s = (set_incoming rest s, Normal tt)).
Proof.
  rewrite decode_pass_refines.
  pose proof (decode_next_shorter (incoming s)) as Hs.
  destruct (decode_next (incoming s)) as [|f rest|rest].
  - left. split; reflexivity.
  - right; left.
    destruct (dispatch_cases f (set_incoming rest s)) as (evs & o & Hd & Ho & He).
    exists f, rest, evs, o. simpl in Hd. auto.
  - right; right. exists rest. auto.
Qed.

(** ** Loops *)

Lemma while_true_more (body : M unit) (fuel extra : nat) (s : state) :
  snd (while_true fuel body s) <> OutOfFuel ->
  while_true (fuel + extra) body s = while_true fuel body s.
Proof.
  revert s. induction fuel as [|fuel IH]; intros s Hne.
  - simpl in Hne. congruence.
  - simpl in *. destruct (body s) as [s' [[]| | |c|e|]]; auto.
Qed.

Lemma while_true_return (body : M unit) (fuel : nat) (s s' : state) (c : Z) :
  body s = (s', Return c) -> while_true (S fuel) body s = (s', Return c).
Proof. intros H. simpl. rewrite H. reflexivity. Qed.

(** Case analysis on what one pass does from [s]: [Hp] is the result of the
    pass, [Hlen] the loss of length, [Ho] the outcome of a dispatch. *)
Ltac pass_cases s :=
  destruct (decode_pass_cases s)
    as [[_ Hp] | [(f & rest & evs & o & _ & Hlen & Hp & Ho & _)
                 | (rest & _ & Hlen & Hp)]].

(** The inner loop never runs out of a budget larger than the buffer. *)
Lemma decode_while_terminates (fuel : nat) :
  forall s, (length (incoming s) < fuel)%nat ->
            snd (while_true fuel decode_pass s) <> OutOfFuel.
Proof.
  induction fuel as [|fuel IH]; intros s Hlt; [lia|].
  simpl.
  pass_cases s; rewrite Hp.
  - simpl. discriminate.
  - destruct Ho as [-> | [e ->]].
    + apply IH. simpl. lia.
    + simpl. discriminate.
  - apply IH. simpl. lia.
Qed.

Lemma decode_while_passes (fuel : nat) :
  forall s, (while_passes fuel decode_pass s <= S (length (incoming s)))%nat.
Proof.
  induction fuel as [|fuel IH]; intros s; simpl; [lia|].
  pass_cases s; rewrite Hp.
  - lia.
  - destruct Ho as [-> | [e ->]]; [|lia].
    match goal with |- (S (while_passes _ _ ?t) <= _)%nat =>
      specialize (IH t); simpl in IH end.
    lia.
  - specialize (IH (set_incoming rest s)). simpl in IH. lia.
Qed.

Lemma decode_while_run (fuel : nat) (s : state) :
  (length (incoming s) < fuel)%nat ->
  while_true fuel decode_pass s = decode_run s.
Proof.
  intros Hlt. unfold decode_run.
  replace fuel with (S (length (incoming s)) + (fuel - S (length (incoming s))))%nat
    by lia.
  apply while_true_more. apply decode_while_terminates. lia.
Qed.

(** Unfolding the inner loop by one pass. *)
Lemma decode_run_step (s : state) :
  decode_run s =
  match decode_pass s with
  | (s', Normal _) => decode_run s'
  | (s', Continue) => decode_run s'
  | (s', Break) => (s', Normal tt)
  | (s', Return c) => (s', Return c)
  | (s', Raise e) => (s', Raise e)
  | (s', OutOfFuel) => (s', OutOfFuel)
  end.
Proof.
  unfold decode_run at 1. cbn [while_true].
  pass_cases s; rewrite Hp.
  - reflexivity.
  - destruct Ho as [-> | [e ->]]; [|reflexivity].
    apply decode_while_run. simpl. lia.
  - apply decode_while_run. simpl. lia.
Qed.

Lemma decode_loop_run (s : state) : decode_loop s = decode_run s.
Proof. reflexivity. Qed.

Lemma feed_run (chunk : bytes) (s : state) :
  feed chunk s = decode_run (extend chunk s).
Proof. reflexivity. Qed.

(** What the inner loop leaves behind: the registrations are untouched, the
    trace grows by frame dispatches only, and on normal completion the flag
    is raised exactly when a CLOSE frame was among the frames decoded. *)
Lemma decode_while_effect (fuel : nat) :
  forall s s' o,
    while_true fuel decode_pass s = (s', o) ->
    registered s' = registered s
    /\ (exists evs, trace s' = trace s ++ evs /\ Forall frame_event evs)
    /\ (o = Normal tt ->
        should_close s' =
          should_close s || existsb is_close (frames_upto fuel (incoming s)))
    /\ (completes o \/ o = OutOfFuel).
Proof.
  induction fuel as [|fuel IH]; intros s s' o Hw; simpl in Hw.
  - inversion Hw; subst. repeat split; try discriminate; auto.
    exists []. rewrite app_nil_r. auto.
  - destruct (decode_pass_cases s)
      as [[Hd Hp] | [(f & rest & evs & o1 & Hd & Hlen & Hp & Ho & Hev)
                   | (rest & Hd & Hlen & Hp)]];
      rewrite Hp in Hw; simpl frames_upto; rewrite Hd.
    + inversion Hw; subst. repeat split.
      * exists []. rewrite app_nil_r. auto.
      * simpl. rewrite orb_false_r. reflexivity.
      * left; left; reflexivity.
    + destruct Ho as [-> | [e ->]].
      * apply IH in Hw. simpl in Hw.
        destruct Hw as (Hr & (evs' & Ht & He') & Hsc & Ho).
        repeat split; auto.
        -- exists (evs ++ evs'). rewrite Ht, app_assoc. split; auto.
           apply Forall_app; auto.
        -- intros Hn. rewrite (Hsc Hn). simpl.
           rewrite orb_assoc. reflexivity.
      * inversion Hw; subst. simpl. repeat split.
        -- exists evs. auto.
        -- discriminate.
        -- left; right; eexists; reflexivity.
    + apply IH in Hw. simpl in Hw. exact Hw.
Qed.

(** ** Chunk boundaries *)

Lemma dispatch_set_incoming (f : Frame) (x : bytes) (s : state) :
  dispatch f (set_incoming x s) =
  (set_incoming x (fst (dispatch f s)), snd (dispatch f s)).
Proof.
  destruct s as [inc sc reg tr]. destruct f as [payload|cols rows|]; simpl.
  - destruct (truthy payload); reflexivity.
  - unfold bind, _set_winsize.
    destruct (pack_HHHH rows cols 0 0) as [ws|]; [|reflexivity].
    unfold fcntl_ioctl, modify, os_kill, log; simpl.
    destruct (env_kill env ((tr ++ [EvIoctl master_fd TIOCSWINSZ ws]))
                       child_pid SIGWINCH); reflexivity.
  - reflexivity.
Qed.

Lemma set_incoming_extend (c x : bytes) (s : state) :
  set_incoming x (extend c s) = set_incoming x s.
Proof. reflexivity. Qed.

Lemma extend_app (c1 c2 : bytes) (s : state) :
  extend (c1 ++ c2) s = extend c2 (extend c1 s).
Proof.
  unfold extend, set_incoming. simpl. rewrite app_assoc. reflexivity.
Qed.

(** A pass that consumed something does the same when more bytes follow. *)
Lemma decode_pass_extend (c : bytes) (s : state) :
  snd (decode_pass s) <> Break ->
  decode_pass (extend c s) =
  (extend c (fst (decode_pass s)), snd (decode_pass s)).
Proof.
  rewrite !decode_pass_refines.
  change (incoming (extend c s)) with (incoming s ++ c).
  pose proof (decode_next_app (incoming s) c) as Happ.
  destruct (decode_next (incoming s)) as [|f rest|rest]; intros Hnb.
  - simpl in Hnb. congruence.
  - rewrite Happ, set_incoming_extend, !dispatch_set_incoming.
    reflexivity.
  - rewrite Happ. reflexivity.
Qed.

(** Running the inner loop on a longer buffer is running it on the shorter
    one and then going on with the bytes that were appended. *)
Lemma decode_run_extend (n : nat) :
  forall s c,
    (length (incoming s) < n)%nat ->
    decode_run (extend c s) =
    match decode_run s with
    | (s', Normal _) => decode_run (extend c s')
    | (s', o) => (extend c s', o)
    end.
Proof.
  induction n as [|n IH]; intros s c Hlt; [lia|].
  rewrite (decode_run_step s).
  pass_cases s.
  - rewrite Hp. reflexivity.
  - rewrite (decode_run_step (extend c s)), decode_pass_extend
      by (rewrite Hp; destruct Ho as [-> | [e ->]]; discriminate).
    rewrite Hp. cbn [fst snd].
    destruct Ho as [-> | [e ->]]; [|reflexivity].
    apply IH. simpl. lia.
  - rewrite (decode_run_step (extend c s)), decode_pass_extend
      by (rewrite Hp; discriminate).
    rewrite Hp. cbn [fst snd].
    apply IH. simpl. lia.
Qed.

Lemma decode_run_completes (s : state) : completes (snd (decode_run s)).
Proof.
  destruct (decode_run s) as [s' o] eqn:Hr. unfold decode_run in Hr.
  pose proof (decode_while_terminates (S (length (incoming s))) s
                ltac:(lia)) as Ht.
  rewrite Hr in Ht. simpl in Ht.
  destruct (decode_while_effect _ _ _ _ Hr) as (_ & _ & _ & [Hc | Hc]);
    [exact Hc | contradiction].
Qed.

(** Feeding chunk after chunk is feeding their concatenation. *)
Lemma feed_chunks_concat (cs : list bytes) :
  forall c s,
    snd (feed (concat (c :: cs)) s) = Normal tt ->
    for_each (c :: cs) feed s = feed (concat (c :: cs)) s.
Proof.
  induction cs as [|c2 cs IH]; intros c s Hn.
  - simpl in *. rewrite app_nil_r in *.
    destruct (feed c s) as [s' o]. simpl in Hn. subst o. reflexivity.
  - change (concat (c :: c2 :: cs)) with (c ++ concat (c2 :: cs)) in *.
    rewrite feed_run, extend_app in *.
    rewrite (decode_run_extend (S (length (incoming (extend c s))))) in *
      by lia.
    cbn [for_each]. rewrite feed_run.
    pose proof (decode_run_completes (extend c s)) as Hc.
    destruct (decode_run (extend c s)) as [s1 o1].
    destruct Hc as [Hc | [e Hc]]; simpl in Hc; subst o1.
    + rewrite <- feed_run in *. apply IH. exact Hn.
    + simpl in Hn. discriminate.
Qed.

(** ** Exit status *)

(** C2: the exit code of a normal exit is the child's exit code, that of a
    death by signal is 128 plus the signal number, and any other status gives
    1; so a normal exit with code 0 gives 0 and a death by signal 9 gives
    137. *)
Theorem exit_code_from_status_cases (status : Z) :
  status_exclusive status ->
  (WIFEXITED status = true ->
   _exit_code_from_status status = WEXITSTATUS status)
  /\ (WIFSIGNALED status = true ->
      _exit_code_from_status status = 128 + WTERMSIG status)
  /\ (WIFEXITED status = false -> WIFSIGNALED status = false ->
      _exit_code_from_status status = 1)
  /\ (WIFEXITED status = true -> WEXITSTATUS status = 0 ->
      _exit_code_from_status status = 0)
  /\ (WIFSIGNALED status = true -> WTERMSIG status = 9 ->
      _exit_code_from_status status = 137).
Proof.
  intros Hex. unfold _exit_code_from_status, status_exclusive in *.
  destruct (WIFEXITED status) eqn:He.
  - specialize (Hex eq_refl). rewrite Hex.
    repeat split; intros; try congruence.
  - destruct (WIFSIGNALED status) eqn:Hs;
      repeat split; intros; try congruence; lia.
Qed.

(** ** Frames *)

Lemma slice_payload {A} (n : Z) (op n1 n2 n3 n4 : A) (tl : list A) :
  0 <= n ->
  slice 5 (5 + n) (op :: n1 :: n2 :: n3 :: n4 :: tl) = firstn (Z.to_nat n) tl.
Proof.
  intros Hn. unfold slice. replace (5 + n - 5) with n by lia. reflexivity.
Qed.

Lemma del_payload {A} (n : Z) (op n1 n2 n3 n4 : A) (tl : list A) :
  0 <= n ->
  del_prefix (5 + n) (op :: n1 :: n2 :: n3 :: n4 :: tl) = skipn (Z.to_nat n) tl.
Proof.
  intros Hn. unfold del_prefix.
  replace (Z.to_nat (5 + n)) with (5 + Z.to_nat n)%nat by lia. reflexivity.
Qed.

Lemma five_bytes (buffer : bytes) :
  5 <= len buffer ->
  exists op n1 n2 n3 n4 tl, buffer = op :: n1 :: n2 :: n3 :: n4 :: tl.
Proof.
  intros H.
  destruct buffer as [|op [|n1 [|n2 [|n3 [|n4 tl]]]]];
    try (unfold len in H; simpl in H; lia).
  repeat eexists.
Qed.

(** C1: a buffer that starts with 0x01 and holds the [5 + N] bytes its length
    field announces is decoded into the payload [buffer[5:5+N]]; exactly
    those [5 + N] bytes leave the front of the buffer, the rest stays as it
    was, and the payload is written to the PTY master exactly when it is not
    empty. *)
Theorem data_frame_decoded (s : state) (op : byte) (tl : bytes) :
  incoming s = op :: tl ->
  byte_val op = OPCODE_DATA ->
  let N := be_uint (slice 1 5 (incoming s)) in
  5 + N <= len (incoming s) ->
  let payload := slice 5 (5 + N) (incoming s) in
  let remainder := del_prefix (5 + N) (incoming s) in
  incoming s = slice 0 5 (incoming s) ++ payload ++ remainder
  /\ 0 <= N < 2 ^ 32
  /\ len payload = N
  /\ decode_next (incoming s) = Decoded (Data payload) remainder
  /\ decode_pass s =
       (mk_state remainder (should_close s) (registered s)
          (trace s ++
             (if truthy payload then [EvWrite master_fd payload] else [])),
        Normal tt)
  /\ (truthy payload = true <-> payload <> []).
Proof.
  intros Hin Hop N Hlen payload remainder.
  assert (HN : 0 <= N) by apply be_uint_nonneg.
  destruct (five_bytes (incoming s) ltac:(lia))
    as (op' & n1 & n2 & n3 & n4 & rest & Hb).
  assert (op' = op) by congruence. subst op'.
  subst payload remainder. revert Hlen. subst N.
  rewrite decode_pass_refines, Hb.
  change (slice 1 5 (op :: n1 :: n2 :: n3 :: n4 :: rest))
    with [n1; n2; n3; n4].
  clear HN. set (N := be_uint [n1; n2; n3; n4]) in *. intros Hlen.
  assert (HN : 0 <= N) by apply be_uint_nonneg.
  rewrite slice_payload, del_payload by exact HN.
  rewrite !len_cons in Hlen. unfold len in Hlen.
  assert (Hnext : decode_next (op :: n1 :: n2 :: n3 :: n4 :: rest)
                  = Decoded (Data (firstn (Z.to_nat N) rest))
                            (skipn (Z.to_nat N) rest)).
  { unfold decode_next.
    replace (byte_val op =? 1) with true by (rewrite Hop; reflexivity).
    fold N. cbv zeta.
    replace (len rest <? N) with false
      by (symmetry; apply Z.ltb_ge; unfold len; lia).
    reflexivity. }
  split; [|split; [|split; [|split; [|split]]]].
  - change (slice 0 5 (op :: n1 :: n2 :: n3 :: n4 :: rest))
      with [op; n1; n2; n3; n4].
    rewrite firstn_skipn. reflexivity.
  - apply be_uint4_range.
  - unfold len. rewrite length_firstn. lia.
  - exact Hnext.
  - rewrite Hnext. destruct s as [inc sc reg tr]. simpl.
    destruct (truthy (firstn (Z.to_nat N) rest)).
    + reflexivity.
    + unfold ret. simpl. rewrite app_nil_r. reflexivity.
  - apply truthy_iff.
Qed.

(** C3: when the first byte of the buffer is none of the three opcodes, one
    pass drops that byte alone, keeps the bytes after it, and the loop goes
    straight on with them; a complete frame that follows the stray byte is
    dispatched by the next pass as if the byte had not been there. *)
Theorem unknown_opcode_resync (s : state) (op : byte) (rest : bytes) :
  incoming s = op :: rest ->
  byte_val op <> OPCODE_DATA ->
  byte_val op <> OPCODE_RESIZE ->
  byte_val op <> OPCODE_CLOSE ->
  decode_pass s = (set_incoming rest s, Normal tt)
  /\ decode_loop s = decode_loop (set_incoming rest s)
  /\ (forall f rest',
        decode_next rest = Decoded f rest' ->
        (decode_pass ;;; decode_pass) s = decode_pass (set_incoming rest s)
        /\ decode_pass (set_incoming rest s)
           = dispatch f (set_incoming rest' s)).
Proof.
  intros Hin H1 H2 H3.
  assert (Hp : decode_pass s = (set_incoming rest s, Normal tt)).
  { rewrite decode_pass_refines, Hin. unfold decode_next.
    change OPCODE_DATA with 1 in H1. change OPCODE_RESIZE with 2 in H2.
    change OPCODE_CLOSE with 3 in H3.
    destruct (Z.eqb_spec (byte_val op) 1); [contradiction|].
    destruct (Z.eqb_spec (byte_val op) 2); [contradiction|].
    destruct (Z.eqb_spec (byte_val op) 3); [contradiction|].
    reflexivity. }
  split; [exact Hp|]. split.
  - rewrite !decode_loop_run, (decode_run_step s), Hp. reflexivity.
  - intros f rest' Hd. unfold bind at 1. rewrite Hp. split; [reflexivity|].
    rewrite decode_pass_refines. simpl incoming. rewrite Hd. reflexivity.
Qed.

(** C4: a buffer that starts with a known opcode and is shorter than its
    frame is left as it is, with a request for more bytes; and a DATA frame
    that arrives cut into chunks at any places is forwarded as one write of
    its whole payload, as if it had arrived in one piece. *)
Theorem incomplete_frame_waits :
  (forall s,
      frame_incomplete (incoming s) ->
      decode_pass s = (s, Break) /\ decode_loop s = (s, Normal tt))
  /\ (forall (s : state) (op : byte) (hdr payload c : bytes)
             (cs : list bytes),
        incoming s = [] ->
        byte_val op = OPCODE_DATA ->
        length hdr = 4%nat ->
        be_uint hdr = len payload ->
        concat (c :: cs) = op :: hdr ++ payload ->
        for_each (c :: cs) feed s =
          (mk_state [] (should_close s) (registered s)
             (trace s ++
                (if truthy payload then [EvWrite master_fd payload] else [])),
           Normal tt)
        /\ for_each (c :: cs) feed s = feed (op :: hdr ++ payload) s).
Proof.
  split.
  - intros s Hinc.
    assert (Hp : decode_pass s = (s, Break)).
    { rewrite decode_pass_refines.
      destruct (incoming s) as [|op body] eqn:Hin; [reflexivity|].
      unfold frame_incomplete in Hinc. unfold decode_next.
      change OPCODE_DATA with 1 in Hinc. change OPCODE_RESIZE with 2 in Hinc.
      change OPCODE_CLOSE with 3 in Hinc.
      destruct Hinc as [[Hop Hl] | [[Hop Hl] | [Hop Hl]]].
      - replace (byte_val op =? 1) with true by (rewrite Hop; reflexivity).
        destruct body as [|n1 [|n2 [|n3 [|n4 tl]]]]; try reflexivity.
        change (slice 1 5 (op :: n1 :: n2 :: n3 :: n4 :: tl))
          with [n1; n2; n3; n4] in Hl.
        rewrite !len_cons in Hl. pose proof (len_nonneg tl).
        cbv zeta.
        replace (len tl <? be_uint [n1; n2; n3; n4]) with true
          by (symmetry; apply Z.ltb_lt; lia).
        reflexivity.
      - replace (byte_val op =? 1) with false by (rewrite Hop; reflexivity).
        replace (byte_val op =? 2) with true by (rewrite Hop; reflexivity).
        destruct body as [|c1 [|c2 [|r1 [|r2 tl]]]]; try reflexivity.
        rewrite !len_cons in Hl. pose proof (len_nonneg tl). lia.
      - rewrite len_cons in Hl. pose proof (len_nonneg body). lia. }
    split; [exact Hp|].
    rewrite decode_loop_run, decode_run_step, Hp. reflexivity.
  - intros s op hdr payload c cs Hin Hop Hh Hbe Hcat.
    destruct hdr as [|n1 [|n2 [|n3 [|n4 [|]]]]]; try discriminate.
    assert (Hfeed : feed (op :: [n1; n2; n3; n4] ++ payload) s =
              (mk_state [] (should_close s) (registered s)
                 (trace s ++
                    (if truthy payload then [EvWrite master_fd payload]
                     else [])), Normal tt)).
    { rewrite feed_run, decode_run_step, decode_pass_refines.
      unfold extend. rewrite Hin. simpl incoming. simpl app.
      unfold decode_next.
      replace (byte_val op =? 1) with true by (rewrite Hop; reflexivity).
      cbv zeta. rewrite Hbe, Z.ltb_irrefl.
      unfold len. rewrite Nat2Z.id, firstn_all, skipn_all.
      destruct s as [inc sc reg tr]. simpl in *.
      destruct (truthy payload); unfold os_write, modify, ret, log; simpl;
        rewrite ?app_nil_r; reflexivity. }
    assert (Hn : snd (feed (concat (c :: cs)) s) = Normal tt)
      by (rewrite Hcat, Hfeed; reflexivity).
    rewrite (feed_chunks_concat cs c s Hn), Hcat.
    split; [exact Hfeed | reflexivity].
Qed.

Lemma resize_pass (s : state) (op c1 c2 r1 r2 : byte) (rest : bytes) :
  incoming s = op :: c1 :: c2 :: r1 :: r2 :: rest ->
  byte_val op = OPCODE_RESIZE ->
  let ws := mk_winsize (be_uint [r1; r2]) (be_uint [c1; c2]) 0 0 in
  let k := env_kill env (trace s ++ [EvIoctl master_fd TIOCSWINSZ ws])
                    child_pid SIGWINCH in
  decode_pass s =
    (mk_state rest (should_close s) (registered s)
       (trace s ++ [EvIoctl master_fd TIOCSWINSZ ws;
                    EvKill child_pid SIGWINCH k]),
     match k with Some e => Raise e | None => Normal tt end).
Proof.
  intros Hin Hop ws k.
  rewrite decode_pass_refines, Hin. unfold decode_next.
  replace (byte_val op =? 1) with false by (rewrite Hop; reflexivity).
  replace (byte_val op =? 2) with true by (rewrite Hop; reflexivity).
  unfold dispatch, bind, _set_winsize.
  rewrite pack_HHHH_ushort by apply be_uint2_range.
  fold ws. unfold fcntl_ioctl, modify, os_kill, log; simpl.
  fold k. rewrite <- app_assoc. simpl.
  destruct k as [e|]; reflexivity.
Qed.

(** C6: a RESIZE frame makes the pass issue the window-size request with the
    frame's rows and columns and zero pixel sizes, and after it a SIGWINCH
    to the child; e.g. the frame for 80 columns and 24 rows sets 24 rows and
    80 columns. *)
Theorem resize_frame_dispatch (s : state) (op c1 c2 r1 r2 : byte)
        (rest : bytes) :
  incoming s = op :: c1 :: c2 :: r1 :: r2 :: rest ->
  byte_val op = OPCODE_RESIZE ->
  let cols := be_uint [c1; c2] in
  let rows := be_uint [r1; r2] in
  let ws := mk_winsize rows cols 0 0 in
  let k := env_kill env (trace s ++ [EvIoctl master_fd TIOCSWINSZ ws])
                    child_pid SIGWINCH in
  fst (decode_pass s) =
    mk_state rest (should_close s) (registered s)
      (trace s ++ [EvIoctl master_fd TIOCSWINSZ ws;
                   EvKill child_pid SIGWINCH k])
  /\ (k = None -> snd (decode_pass s) = Normal tt)
  /\ (forall e, k = Some e -> snd (decode_pass s) = Raise e).
Proof.
  intros Hin Hop cols rows ws k.
  rewrite (resize_pass s op c1 c2 r1 r2 rest Hin Hop).
  fold cols rows ws k. simpl.
  destruct k as [e|]; repeat split; intros; congruence.
Qed.

(** C9: each pass of the inner loop either leaves with a request for more
    bytes, changing nothing, or shortens the buffer by at least one byte;
    so the loop ends by itself within one pass more than the buffer has
    bytes. *)
Theorem decode_loop_terminates (s : state) :
  (decode_pass s = (s, Break)
   \/ (length (incoming (fst (decode_pass s))) < length (incoming s))%nat
      /\ completes (snd (decode_pass s)))
  /\ (forall fuel,
        (while_passes fuel decode_pass s <= S (length (incoming s)))%nat)
  /\ snd (decode_loop s) <> OutOfFuel
  /\ completes (snd (decode_loop s))
  /\ (forall fuel, (length (incoming s) < fuel)%nat ->
                   while_true fuel decode_pass s = decode_loop s).
Proof.
  split; [|split; [|split; [|split]]].
  - pass_cases s; rewrite Hp.
    + left; reflexivity.
    + right. simpl. split; [lia | exact Ho].
    + right. simpl. split; [lia | left; reflexivity].
  - intros fuel. apply decode_while_passes.
  - rewrite decode_loop_run. apply decode_while_terminates. lia.
  - rewrite decode_loop_run. apply decode_run_completes.
  - intros fuel Hlt. rewrite decode_loop_run. apply decode_while_run, Hlt.
Qed.

(** ** Invariants and trace growth *)

Lemma grows_refl (P : event -> Prop) (s : state) : grows_by P s s.
Proof. exists []. rewrite app_nil_r. auto. Qed.

Lemma grows_trans (P : event -> Prop) (s1 s2 s3 : state) :
  grows_by P s1 s2 -> grows_by P s2 s3 -> grows_by P s1 s3.
Proof.
  intros (e1 & H1 & F1) (e2 & H2 & F2). exists (e1 ++ e2).
  rewrite H2, H1, app_assoc. split; [reflexivity | apply Forall_app; auto].
Qed.

Lemma grows_log (P : event -> Prop) (e : event) (s : state) :
  P e -> grows_by P s (log e s).
Proof. intros H. exists [e]. simpl. auto. Qed.

Lemma grows_weaken (P Q : event -> Prop) (s s' : state) :
  (forall e, P e -> Q e) -> grows_by P s s' -> grows_by Q s s'.
Proof.
  intros Himp (evs & Ht & Hf). exists evs. split; [exact Ht|].
  eapply Forall_impl; eauto.
Qed.

Lemma sighups_app (t1 t2 : list event) :
  sighups (t1 ++ t2) = (sighups t1 + sighups t2)%nat.
Proof. unfold sighups. rewrite filter_app, length_app. reflexivity. Qed.

Lemma sighups_none (evs : list event) :
  Forall no_sighup evs -> sighups evs = 0%nat.
Proof.
  unfold sighups. induction 1 as [|e evs He _ IH]; [reflexivity|].
  simpl. unfold no_sighup in He. rewrite He. exact IH.
Qed.

Lemma grows_sighups (s s' : state) :
  grows_by no_sighup s s' -> sighups (trace s') = sighups (trace s).
Proof.
  intros (evs & Ht & Hf). rewrite Ht, sighups_app, (sighups_none _ Hf). lia.
Qed.

Section Rules.

Variable I : state -> Prop.
Variable P : event -> Prop.

Lemma preserves_ret {A} (a : A) : preserves I P (ret a).
Proof.
  intros s s' o Hi H. inversion H; subst. split; [exact Hi | apply grows_refl].
Qed.

Lemma preserves_bind {A B} (m : M A) (k : A -> M B) :
  preserves I P m -> (forall a, preserves I P (k a)) ->
  preserves I P (bind m k).
Proof.
  intros Hm Hk s s' o Hi H. unfold bind in H.
  destruct (m s) as [s1 o1] eqn:Hms.
  destruct (Hm _ _ _ Hi Hms) as [Hi1 Hg1].
  destruct o1 as [a| | |c|e|];
    try (inversion H; subst; split; assumption).
  destruct (Hk a _ _ _ Hi1 H) as [Hi2 Hg2].
  split; [exact Hi2 | eapply grows_trans; eauto].
Qed.

Lemma preserves_try {A} (body handler : M A) (cls : exn) :
  preserves I P body -> preserves I P handler ->
  preserves I P (try_except body cls handler).
Proof.
  intros Hb Hh s s' o Hi H. unfold try_except in H.
  destruct (body s) as [s1 o1] eqn:Hbs.
  destruct (Hb _ _ _ Hi Hbs) as [Hi1 Hg1].
  destruct o1 as [a| | |c|e|];
    try (inversion H; subst; split; assumption).
  destruct (isinstance e cls).
  - destruct (Hh _ _ _ Hi1 H) as [Hi2 Hg2].
    split; [exact Hi2 | eapply grows_trans; eauto].
  - inversion H; subst; split; assumption.
Qed.

Lemma preserves_while (body : M unit) (fuel : nat) :
  preserves I P body -> preserves I P (while_true fuel body).
Proof.
  intros Hb. induction fuel as [|fuel IH]; intros s s' o Hi H; simpl in H.
  - inversion H; subst. split; [exact Hi | apply grows_refl].
  - destruct (body s) as [s1 o1] eqn:Hbs.
    destruct (Hb _ _ _ Hi Hbs) as [Hi1 Hg1].
    destruct o1 as [a| | |c|e|];
      try (inversion H; subst; split; assumption);
      destruct (IH _ _ _ Hi1 H) as [Hi2 Hg2];
      (split; [exact Hi2 | eapply grows_trans; eauto]).
Qed.

Lemma preserves_for_each {K} (items : list K) (body : K -> M unit) :
  (forall k, In k items -> preserves I P (body k)) ->
  preserves I P (for_each items body).
Proof.
  induction items as [|k items IH]; intros Hb s s' o Hi H; simpl in H.
  - inversion H; subst. split; [exact Hi | apply grows_refl].
  - destruct (body k s) as [s1 o1] eqn:Hbs.
    destruct (Hb k (or_introl eq_refl) _ _ _ Hi Hbs) as [Hi1 Hg1].
    assert (Hrest : preserves I P (for_each items body))
      by (apply IH; intros k' Hin; apply Hb; right; exact Hin).
    destruct o1 as [a| | |c|e|];
      try (inversion H; subst; split; assumption);
      destruct (Hrest _ _ _ Hi1 H) as [Hi2 Hg2];
      (split; [exact Hi2 | eapply grows_trans; eauto]).
Qed.

(** A system call that logs [ev] and leaves the program variables alone. *)
Hypothesis I_log : forall e s, I s -> I (log e s).

Lemma preserves_os_read (fd n : Z) :
  (forall r, P (EvRead fd n r)) -> preserves I P (os_read fd n).
Proof.
  intros HP s s' o Hi H. unfold os_read in H.
  destruct (env_read env (trace s) fd n) as [e|data];
    inversion H; subst; split; auto using grows_log.
Qed.

Lemma preserves_os_write (fd : Z) (data : bytes) :
  P (EvWrite fd data) -> preserves I P (os_write fd data).
Proof.
  intros HP s s' o Hi H. inversion H; subst. split; auto using grows_log.
Qed.

Lemma preserves_os_kill (pid : Z) (sig : signal) :
  (forall r, P (EvKill pid sig r)) -> preserves I P (os_kill pid sig).
Proof.
  intros HP s s' o Hi H. unfold os_kill in H.
  destruct (env_kill env (trace s) pid sig) as [e|];
    inversion H; subst; split; auto using grows_log.
Qed.

Lemma preserves_os_waitpid (pid options : Z) :
  (forall r, P (EvWaitpid pid options r)) ->
  preserves I P (os_waitpid pid options).
Proof.
  intros HP s s' o Hi H. inversion H; subst. split; auto using grows_log.
Qed.

Lemma preserves_return {A} (c : Z) : preserves I P (@return_ A c).
Proof.
  intros s s' o Hi H. inversion H; subst. split; [exact Hi | apply grows_refl].
Qed.

Lemma preserves_on_pty :
  (forall r, P (EvRead master_fd 65536 r)) ->
  (forall data, P (EvWrite stdout_fd data)) ->
  (forall r, P (EvWaitpid child_pid 0 r)) ->
  preserves I P on_pty.
Proof.
  intros Hr Hw Hp. unfold on_pty.
  apply preserves_bind.
  - apply preserves_try; [apply preserves_os_read, Hr | apply preserves_ret].
  - intros data. destruct (truthy data).
    + apply preserves_os_write, Hw.
    + apply preserves_bind; [apply preserves_os_waitpid, Hp|].
      intros r. apply preserves_return.
Qed.

Lemma preserves_close_phase :
  (forall s, I s -> I (set_should_close false s)) ->
  (forall r, P (EvKill child_pid SIGHUP r)) ->
  preserves I P close_phase.
Proof.
  intros Hsc Hk s s' o Hi H. unfold close_phase, bind, get in H.
  destruct (should_close s).
  - revert s s' o Hi H.
    change (preserves I P
              (fun s => match try_except (os_kill child_pid SIGHUP)
                                ProcessLookupError (ret tt) s with
                        | (s', Normal _) => modify (set_should_close false) s'
                        | (s', Break) => (s', Break)
                        | (s', Continue) => (s', Continue)
                        | (s', Return c) => (s', Return c)
                        | (s', Raise e) => (s', Raise e)
                        | (s', OutOfFuel) => (s', OutOfFuel)
                        end)).
    apply (preserves_bind
             (try_except (os_kill child_pid SIGHUP) ProcessLookupError (ret tt))
             (fun _ => modify (set_should_close false))).
    + apply preserves_try; [apply preserves_os_kill, Hk | apply preserves_ret].
    + intros _ s s' o Hi H. unfold modify in H. injection H as <- <-.
      split; [apply Hsc, Hi | exists []; simpl; rewrite app_nil_r; auto].
  - inversion H; subst. split; [exact Hi | apply grows_refl].
Qed.

Lemma preserves_reap_phase :
  (forall r, P (EvWaitpid child_pid WNOHANG r)) ->
  preserves I P reap_phase.
Proof.
  intros Hp. unfold reap_phase. apply preserves_bind.
  - apply preserves_os_waitpid, Hp.
  - intros r. destruct (fst r =? child_pid);
      [apply preserves_return | apply preserves_ret].
Qed.

End Rules.

(** ** The event loop *)

Lemma handle_key_pty (s : state) : handle_key KPty s = on_pty s.
Proof. reflexivity. Qed.

Lemma handle_key_stdin (s : state) : handle_key KStdin s = on_stdin s.
Proof.
  unfold handle_key, bind. simpl.
  destruct (on_stdin s) as [s' [[]| | |c|e|]]; reflexivity.
Qed.

Lemma frame_event_no_sighup (e : event) : frame_event e -> no_sighup e.
Proof. destruct e as [| | | |pid [] r|]; simpl; intros H; now try reflexivity. Qed.

Lemma feed_effect (chunk : bytes) (s s' : state) (o : outcome unit) :
  feed chunk s = (s', o) ->
  registered s' = registered s
  /\ grows_by frame_event s s'
  /\ (o = Normal tt ->
      should_close s' =
        should_close s || existsb is_close (frames (incoming s ++ chunk))).
Proof.
  rewrite feed_run. unfold decode_run. intros H.
  apply decode_while_effect in H. simpl in H.
  destruct H as (Hr & Hg & Hsc & _). auto.
Qed.

Lemma preserves_on_stdin_no_sighup :
  preserves (fun _ => True) no_sighup on_stdin.
Proof.
  unfold on_stdin. apply preserves_bind.
  - apply preserves_os_read; [auto | reflexivity].
  - intros chunk. destruct (truthy chunk).
    + intros s s' o _ H. apply feed_effect in H.
      destruct H as (_ & Hg & _). split; [exact I|].
      eapply grows_weaken; [apply frame_event_no_sighup | exact Hg].
    + apply preserves_bind.
      * intros s s' o _ H. unfold selector_unregister in H.
        destruct (is_registered KStdin s); injection H as <- <-;
          (split; [exact I | exists []; simpl; rewrite app_nil_r; auto]).
      * intros _ s s' o _ H. injection H as <- <-.
        split; [exact I | apply grows_refl].
Qed.

Lemma preserves_handle_key_no_sighup (k : Key) :
  preserves (fun _ => True) no_sighup (handle_key k).
Proof.
  intros s s' o Hi H. destruct k.
  - rewrite handle_key_stdin in H.
    eapply preserves_on_stdin_no_sighup; eauto.
  - rewrite handle_key_pty in H. revert s s' o Hi H.
    apply (preserves_on_pty (fun _ => True) no_sighup);
      intros; try exact I; reflexivity.
Qed.

Lemma preserves_read_phase_no_sighup :
  preserves (fun _ => True) no_sighup read_phase.
Proof.
  unfold read_phase. apply preserves_bind.
  - intros s s' o _ H. injection H as <- <-.
    split; [exact I | apply grows_log; reflexivity].
  - intros keys. apply preserves_for_each.
    intros k _. apply preserves_handle_key_no_sighup.
Qed.




(** C7: a read of the PTY master that returns no bytes and one that fails
    with an OS error are handled alike: the child is reaped with a blocking
    wait and the loop returns the mapped exit code at once; no exception
    leaves the handler. *)
Theorem pty_read_failure_is_eof (s : state) :
  let r := env_read env (trace s) master_fd 65536 in
  (r = inr [] \/ exists e, r = inl e /\ isinstance e OSError = true) ->
  let s1 := log (EvRead master_fd 65536 r) s in
  let status := env_wait env (trace s1) in
  let s2 := log (EvWaitpid child_pid 0 (child_pid, status)) s1 in
  let code := _exit_code_from_status status in
  handle_key KPty s = (s2, Return code)
  /\ (forall rest, for_each (KPty :: rest) handle_key s = (s2, Return code))
  /\ (forall s0 rest n,
        selector_select s0 = (s, Normal (KPty :: rest)) ->
        main_loop (S n) s0 = (s2, Return code)).
Proof.
  intros r Hr s1 status s2 code.
  assert (Hk : handle_key KPty s = (s2, Return code)).
  { rewrite handle_key_pty. subst code s2 status s1.
    unfold on_pty, bind, try_except, os_read. unfold r in *. clear r.
    destruct Hr as [Hr | (e & Hr & He)]; rewrite Hr; cbv zeta.
    - reflexivity.
    - rewrite He. reflexivity. }
  split; [exact Hk|].
  assert (Hf : forall rest,
             for_each (KPty :: rest) handle_key s = (s2, Return code)).
  { intros rest. cbn [for_each]. rewrite Hk. reflexivity. }
  split; [exact Hf|].
  intros s0 rest n Hsel.
  unfold main_loop. apply while_true_return.
  unfold loop_body, read_phase, bind. rewrite Hsel, Hf. reflexivity.
Qed.

Lemma close_pass (s : state) (op : byte) (rest : bytes) :
  incoming s = op :: rest ->
  byte_val op = OPCODE_CLOSE ->
  decode_pass s = (mk_state rest true (registered s) (trace s), Normal tt).
Proof.
  intros Hin Hop. rewrite decode_pass_refines, Hin. unfold decode_next.
  replace (byte_val op =? 1) with false by (rewrite Hop; reflexivity).
  replace (byte_val op =? 2) with false by (rewrite Hop; reflexivity).
  replace (byte_val op =? 3) with true by (rewrite Hop; reflexivity).
  reflexivity.
Qed.

(** The close phase when the flag is set and the signal call either succeeds
    or finds no such process. *)
Lemma close_phase_set (s : state) :
  should_close s = true ->
  let k := env_kill env (trace s) child_pid SIGHUP in
  (k = None \/ k = Some ProcessLookupError) ->
  close_phase s =
    (set_should_close false (log (EvKill child_pid SIGHUP k) s), Normal tt).
Proof.
  intros Hsc k Hk. unfold close_phase, bind, get. rewrite Hsc.
  unfold try_except, os_kill. fold k.
  destruct Hk as [Hk | Hk]; rewrite Hk; reflexivity.
Qed.

Lemma close_phase_clear (s : state) :
  should_close s = false -> close_phase s = (s, Normal tt).
Proof.
  intros Hsc. unfold close_phase, bind, get. rewrite Hsc. reflexivity.
Qed.

Lemma reap_phase_running (s : state) :
  child_pid <> 0 ->
  env_poll env (trace s) = None ->
  reap_phase s = (log (EvWaitpid child_pid WNOHANG (0, 0)) s, Normal tt).
Proof.
  intros Hpid Hpoll. unfold reap_phase, bind, os_waitpid.
  rewrite Z.eqb_refl, Hpoll. cbn [fst].
  destruct (Z.eqb_spec 0 child_pid); [congruence | reflexivity].
Qed.

(** C5, as the code has it: a CLOSE frame only raises the close-requested
    flag, so however many CLOSE frames one iteration decodes, the iteration
    delivers one SIGHUP; it does so after the read phase, which itself
    delivers none; and if the child has not exited the loop goes on to its
    next iteration. *)
Theorem close_requests_coalesce :
  child_pid <> 0 ->
  (forall s op rest,
      incoming s = op :: rest -> byte_val op = OPCODE_CLOSE ->
      decode_pass s = (mk_state rest true (registered s) (trace s), Normal tt))
  /\ (forall chunk s s',
        feed chunk s = (s', Normal tt) ->
        should_close s' =
          should_close s || existsb is_close (frames (incoming s ++ chunk))
        /\ sighups (trace s') = sighups (trace s))
  /\ (forall s s1 o,
        read_phase s = (s1, o) -> sighups (trace s1) = sighups (trace s))
  /\ (forall s s1,
        read_phase s = (s1, Normal tt) ->
        let k := env_kill env (trace s1) child_pid SIGHUP in
        (k = None \/ k = Some ProcessLookupError) ->
        let s2 := if should_close s1
                  then set_should_close false
                         (log (EvKill child_pid SIGHUP k) s1)
                  else s1 in
        env_poll env (trace s2) = None ->
        let s3 := log (EvWaitpid child_pid WNOHANG (0, 0)) s2 in
        loop_body s = (s3, Normal tt)
        /\ should_close s3 = false
        /\ sighups (trace s3) =
             (sighups (trace s) + (if should_close s1 then 1 else 0))%nat
        /\ forall n, main_loop (S n) s = main_loop n s3).
Proof.
  intros Hpid. split; [|split; [|split]].
  - apply close_pass.
  - intros chunk s s' Hf. pose proof (feed_effect _ _ _ _ Hf) as (_ & Hg & Hsc).
    split; [apply Hsc; reflexivity|].
    apply grows_sighups. eapply grows_weaken; [|exact Hg].
    apply frame_event_no_sighup.
  - intros s s1 o Hr. apply grows_sighups.
    eapply preserves_read_phase_no_sighup; eauto.
  - intros s s1 Hr k Hk s2 Hpoll s3.
    assert (Hs : sighups (trace s1) = sighups (trace s)).
    { apply grows_sighups. eapply preserves_read_phase_no_sighup; eauto. }
    assert (Hc : close_phase s1 = (s2, Normal tt)).
    { subst s2. destruct (should_close s1) eqn:Hsc.
      - apply close_phase_set; assumption.
      - apply close_phase_clear; assumption. }
    assert (Hbody : loop_body s = (s3, Normal tt)).
    { unfold loop_body, bind. rewrite Hr.
      change (match close_phase s1 with
              | (s', Normal _) => reap_phase s'
              | (s', Break) => (s', Break)
              | (s', Continue) => (s', Continue)
              | (s', Return c) => (s', Return c)
              | (s', Raise e) => (s', Raise e)
              | (s', OutOfFuel) => (s', OutOfFuel)
              end = (s3, Normal tt)).
      rewrite Hc. apply reap_phase_running; assumption. }
    split; [exact Hbody|]. split; [|split].
    + subst s3 s2. destruct (should_close s1) eqn:Hsc; [reflexivity | exact Hsc].
    + subst s3 s2. destruct (should_close s1); simpl;
        rewrite !sighups_app, Hs;
        change (sighups [EvWaitpid child_pid WNOHANG (0, 0)]) with 0%nat;
        try change (sighups [EvKill child_pid SIGHUP k]) with 1%nat; lia.
    + intros n. unfold main_loop. cbn [while_true]. rewrite Hbody.
      reflexivity.
Qed.

(** C10: a SIGHUP sent for a close request to a child that is gone is
    ignored and the flag is cleared, whereas the SIGWINCH sent for a RESIZE
    frame has no handler: the same failure leaves the pass, the inner loop
    and the whole event loop as an uncaught [ProcessLookupError]. *)
Theorem dead_child_signal_tolerance :
  (forall s,
      should_close s = true ->
      env_kill env (trace s) child_pid SIGHUP = Some ProcessLookupError ->
      close_phase s =
        (mk_state (incoming s) false (registered s)
           (trace s ++ [EvKill child_pid SIGHUP (Some ProcessLookupError)]),
         Normal tt))
  /\ (forall s op c1 c2 r1 r2 rest,
        incoming s = op :: c1 :: c2 :: r1 :: r2 :: rest ->
        byte_val op = OPCODE_RESIZE ->
        let ws := mk_winsize (be_uint [r1; r2]) (be_uint [c1; c2]) 0 0 in
        env_kill env (trace s ++ [EvIoctl master_fd TIOCSWINSZ ws])
                 child_pid SIGWINCH = Some ProcessLookupError ->
        snd (decode_pass s) = Raise ProcessLookupError
        /\ snd (decode_loop s) = Raise ProcessLookupError
        /\ (forall s0 s1 keys chunk n,
              selector_select s0 = (s1, Normal (KStdin :: keys)) ->
              env_read env (trace s1) stdin_fd 65536 = inr chunk ->
              chunk <> [] ->
              s = extend chunk (log (EvRead stdin_fd 65536 (inr chunk)) s1) ->
              snd (main_loop (S n) s0) = Raise ProcessLookupError)).
Proof.
  split.
  - intros s Hsc Hk.
    rewrite close_phase_set by (try rewrite Hk; auto).
    rewrite Hk. reflexivity.
  - intros s op c1 c2 r1 r2 rest Hin Hop ws Hk.
    pose proof (resize_pass s op c1 c2 r1 r2 rest Hin Hop) as Hp.
    cbv zeta in Hp. fold ws in Hp. rewrite Hk in Hp.
    assert (Hl : snd (decode_loop s) = Raise ProcessLookupError).
    { rewrite decode_loop_run, decode_run_step, Hp. reflexivity. }
    split; [rewrite Hp; reflexivity|]. split; [exact Hl|].
    intros s0 s1 keys chunk n Hsel Hread Hne Hs.
    unfold main_loop. cbn [while_true].
    unfold loop_body, read_phase, bind at 1 2 3. rewrite Hsel.
    cbn [for_each]. rewrite handle_key_stdin.
    unfold on_stdin, bind, os_read. rewrite Hread. cbv zeta.
    apply truthy_iff in Hne. rewrite Hne.
    rewrite feed_run, <- Hs, <- decode_loop_run.
    destruct (decode_loop s) as [s' o]. simpl in Hl. subst o. reflexivity.
Qed.

(** ** More on the inner loop *)

Lemma decode_next_resize_range (buffer rest : bytes) (cols rows : Z) :
  decode_next buffer = Decoded (Resize cols rows) rest ->
  0 <= cols <= 65535 /\ 0 <= rows <= 65535.
Proof.
  unfold decode_next. destruct buffer as [|op body]; [discriminate|].
  destruct (byte_val op =? 1).
  - destruct body as [|n1 [|n2 [|n3 [|n4 tl]]]]; try discriminate.
    cbv zeta. destruct (len tl <? be_uint [n1; n2; n3; n4]); discriminate.
  - destruct (byte_val op =? 2).
    + destruct body as [|c1 [|c2 [|r1 [|r2 tl]]]]; try discriminate.
      intros H. injection H as <- <- _. split; apply be_uint2_range.
    + destruct (byte_val op =? 3); discriminate.
Qed.

(** A pass raises only what the SIGWINCH of a RESIZE frame raised. *)
Lemma decode_pass_raise (s s' : state) (e : exn) :
  decode_pass s = (s', Raise e) ->
  exists ws,
    trace s' = trace s ++ [EvIoctl master_fd TIOCSWINSZ ws;
                           EvKill child_pid SIGWINCH (Some e)]
    /\ env_kill env (trace s ++ [EvIoctl master_fd TIOCSWINSZ ws])
                child_pid SIGWINCH = Some e.
Proof.
  rewrite decode_pass_refines.
  destruct (decode_next (incoming s)) as [|f rest|rest] eqn:Hd;
    try discriminate.
  destruct f as [payload|cols rows|].
  - simpl. destruct (truthy payload); discriminate.
  - destruct (decode_next_resize_range _ _ _ _ Hd) as [Hc Hr].
    unfold dispatch, bind, _set_winsize.
    rewrite (pack_HHHH_ushort rows cols Hr Hc).
    unfold fcntl_ioctl, modify, os_kill, log. simpl.
    destruct (env_kill env
                (trace s ++ [EvIoctl master_fd TIOCSWINSZ
                               (mk_winsize rows cols 0 0)])
                child_pid SIGWINCH) as [e'|] eqn:Hk; [|discriminate].
    intros H. injection H as <- <-. simpl.
    exists (mk_winsize rows cols 0 0). rewrite <- app_assoc. auto.
  - discriminate.
Qed.

Lemma decode_while_raise (fuel : nat) :
  forall s s' e,
    while_true fuel decode_pass s = (s', Raise e) ->
    exists t ws,
      trace s' = t ++ [EvIoctl master_fd TIOCSWINSZ ws;
                       EvKill child_pid SIGWINCH (Some e)]
      /\ env_kill env (t ++ [EvIoctl master_fd TIOCSWINSZ ws])
                  child_pid SIGWINCH = Some e.
Proof.
  induction fuel as [|fuel IH]; intros s s' e Hw; simpl in Hw;
    [discriminate|].
  destruct (decode_pass s) as [s1 o1] eqn:Hp.
  destruct o1 as [[]| | |c|e1|]; try discriminate; eauto.
  injection Hw as <- <-.
  destruct (decode_pass_raise _ _ _ Hp) as (ws & Ht & Hk).
  exists (trace s), ws. auto.
Qed.

Lemma decode_next_need_more (buffer : bytes) :
  decode_next buffer = NeedMoreBytes ->
  buffer = [] \/ frame_incomplete buffer.
Proof.
  destruct buffer as [|op body]; [auto|]. intros H. right.
  unfold decode_next in H. unfold frame_incomplete.
  change OPCODE_DATA with 1. change OPCODE_RESIZE with 2.
  change OPCODE_CLOSE with 3.
  destruct (Z.eqb_spec (byte_val op) 1) as [H1|H1].
  - left. split; [exact H1|].
    destruct body as [|n1 [|n2 [|n3 [|n4 tl]]]];
      try (left; unfold len; simpl; lia).
    right. cbv zeta in H.
    change (slice 1 5 (op :: n1 :: n2 :: n3 :: n4 :: tl))
      with [n1; n2; n3; n4].
    destruct (Z.ltb_spec (len tl) (be_uint [n1; n2; n3; n4]));
      [|discriminate].
    rewrite !len_cons. lia.
  - destruct (Z.eqb_spec (byte_val op) 2) as [H2|H2].
    + right; left. split; [exact H2|].
      destruct body as [|c1 [|c2 [|r1 [|r2 tl]]]];
        try (unfold len; simpl; lia).
      discriminate.
    + destruct (byte_val op =? 3); discriminate.
Qed.

Lemma decode_next_suffix (buffer : bytes) :
  match decode_next buffer with
  | NeedMoreBytes => True
  | Decoded _ rest => exists consumed, buffer = consumed ++ rest
  | Resync rest => exists consumed, buffer = consumed ++ rest
  end.
Proof.
  unfold decode_next. destruct buffer as [|op body]; [exact I|].
  destruct (byte_val op =? 1).
  - destruct body as [|n1 [|n2 [|n3 [|n4 tl]]]]; try exact I.
    cbv zeta. destruct (len tl <? be_uint [n1; n2; n3; n4]); [exact I|].
    exists (op :: n1 :: n2 :: n3 :: n4
               :: firstn (Z.to_nat (be_uint [n1; n2; n3; n4])) tl).
    simpl. rewrite firstn_skipn. reflexivity.
  - destruct (byte_val op =? 2).
    + destruct body as [|c1 [|c2 [|r1 [|r2 tl]]]]; try exact I.
      exists [op; c1; c2; r1; r2]. reflexivity.
    + destruct (byte_val op =? 3); exists [op]; reflexivity.
Qed.

(** Whatever the outcome, the buffer left by the inner loop is a tail of the
    buffer it started from; on normal completion no frame is left in it. *)
Lemma decode_while_residue (fuel : nat) :
  forall s s' o,
    while_true fuel decode_pass s = (s', o) ->
    (exists consumed, incoming s = consumed ++ incoming s')
    /\ (o = Normal tt -> decode_next (incoming s') = NeedMoreBytes).
Proof.
  induction fuel as [|fuel IH]; intros s s' o Hw; simpl in Hw.
  - injection Hw as <- <-. split; [exists []; reflexivity | discriminate].
  - pose proof (decode_next_suffix (incoming s)) as Hsuf.
    destruct (decode_pass_cases s)
      as [[Hd Hp] | [(f & rest & evs & o1 & Hd & Hlen & Hp & Ho & _)
                   | (rest & Hd & Hlen & Hp)]];
      rewrite Hp in Hw; rewrite Hd in Hsuf.
    + injection Hw as <- <-. split; [exists []; reflexivity | auto].
    + destruct Hsuf as [pre Hpre]. destruct Ho as [-> | [e ->]].
      * apply IH in Hw. simpl in Hw. destruct Hw as [[mid Hmid] Hn].
        split; [|exact Hn]. exists (pre ++ mid).
        rewrite Hpre, Hmid, app_assoc. reflexivity.
      * injection Hw as <- <-. simpl.
        split; [exists pre; exact Hpre | discriminate].
    + destruct Hsuf as [pre Hpre].
      apply IH in Hw. simpl in Hw. destruct Hw as [[mid Hmid] Hn].
      split; [|exact Hn]. exists (pre ++ mid).
      rewrite Hpre, Hmid, app_assoc. reflexivity.
Qed.


(** ** Further properties of the inner loop *)

(** X1: the [struct] calls of the inner loop never fail: wherever the loop
    unpacks a header the slice has exactly four bytes, the length it reads
    is below 2^32, and the columns and rows it reads always fit the
    unsigned shorts it packs; so no pass and no run of the loop ends in a
    [struct.error]. *)
Theorem decode_loop_struct_safe :
  (forall buffer : bytes,
      5 <= len buffer ->
      exists N, unpack_I (slice 1 5 buffer) = Some N /\ 0 <= N < 2 ^ 32)
  /\ (forall buffer : bytes,
        5 <= len buffer ->
        exists cols rows,
          unpack_HH (slice 1 5 buffer) = Some (cols, rows)
          /\ pack_HHHH rows cols 0 0 = Some (mk_winsize rows cols 0 0))
  /\ ((forall t pid sig, env_kill env t pid sig <> Some StructError) ->
      forall s s',
        decode_pass s <> (s', Raise StructError)
        /\ decode_loop s <> (s', Raise StructError)).
Proof.
  split; [|split].
  - intros buffer Hlen.
    destruct (five_bytes buffer Hlen) as (op & n1 & n2 & n3 & n4 & tl & ->).
    exists (be_uint [n1; n2; n3; n4]).
    split; [reflexivity | apply be_uint4_range].
  - intros buffer Hlen.
    destruct (five_bytes buffer Hlen) as (op & c1 & c2 & r1 & r2 & tl & ->).
    exists (be_uint [c1; c2]), (be_uint [r1; r2]).
    split; [reflexivity|].
    apply pack_HHHH_ushort; apply be_uint2_range.
  - intros Hkill s s'. split; intros H.
    + destruct (decode_pass_raise _ _ _ H) as (ws & _ & Hk).
      exact (Hkill _ _ _ Hk).
    + rewrite decode_loop_run in H. unfold decode_run in H.
      destruct (decode_while_raise _ _ _ _ H) as (t & ws & _ & Hk).
      exact (Hkill _ _ _ Hk).
Qed.

(** X2: the buffer the inner loop leaves is a tail of the buffer it was
    given; when the loop completes, that tail is empty or an incomplete
    frame, and running the loop again changes nothing. *)
Theorem decode_loop_residue (s s' : state) (o : outcome unit) :
  decode_loop s = (s', o) ->
  (exists consumed, incoming s = consumed ++ incoming s')
  /\ (o = Normal tt ->
      (incoming s' = [] \/ frame_incomplete (incoming s'))
      /\ decode_loop s' = (s', Normal tt)).
Proof.
  rewrite decode_loop_run. unfold decode_run at 1. intros Hw.
  destruct (decode_while_residue _ _ _ _ Hw) as [Hsuf Hn].
  split; [exact Hsuf|]. intros Ho. specialize (Hn Ho).
  split; [apply decode_next_need_more, Hn|].
  rewrite decode_loop_run, decode_run_step, decode_pass_refines, Hn.
  reflexivity.
Qed.


Lemma data_frames_run (fs : list (bytes * bytes)) :
  Forall well_framed fs ->
  forall s,
    incoming s = data_frames fs ->
    decode_run s =
      (mk_state [] (should_close s) (registered s)
         (trace s ++ map (EvWrite master_fd) (filter truthy (map snd fs))),
       Normal tt).
Proof.
  induction 1 as [|[h p] fs [Hh Hbe] _ IH]; intros s Hin.
  - rewrite decode_run_step, decode_pass_refines, Hin. simpl.
    rewrite app_nil_r. destruct s; simpl in *; subst; reflexivity.
  - simpl in Hh, Hbe.
    destruct h as [|n1 [|n2 [|n3 [|n4 [|]]]]]; try discriminate.
    assert (Hb : incoming s
                 = x01 :: n1 :: n2 :: n3 :: n4 :: p ++ data_frames fs).
    { rewrite Hin. reflexivity. }
    assert (Hnext : decode_next (incoming s)
                    = Decoded (Data p) (data_frames fs)).
    { rewrite Hb. unfold decode_next.
      change (byte_val x01 =? 1) with true. cbv iota zeta.
      rewrite Hbe.
      replace (len (p ++ data_frames fs) <? len p) with false
        by (symmetry; apply Z.ltb_ge; rewrite len_app;
            pose proof (len_nonneg (data_frames fs)); lia).
      unfold len. rewrite Nat2Z.id, firstn_app, skipn_app.
      rewrite firstn_all, skipn_all, Nat.sub_diag. simpl.
      rewrite app_nil_r. reflexivity. }
    rewrite decode_run_step, decode_pass_refines, Hnext. simpl dispatch.
    simpl map. simpl filter.
    destruct (truthy p).
    + unfold os_write, modify. rewrite IH by reflexivity.
      simpl. rewrite <- app_assoc. reflexivity.
    + unfold ret. rewrite IH by reflexivity. reflexivity.
Qed.

(** X4: a buffer made of DATA frames, read into an empty buffer in one
    piece, is forwarded frame by frame: one write to the PTY master per
    non-empty payload, in the order of the frames, and nothing is left in
    the buffer. *)
Theorem data_frames_forwarded_in_order (fs : list (bytes * bytes))
        (s : state) :
  Forall well_framed fs ->
  incoming s = [] ->
  feed (data_frames fs) s =
    (mk_state [] (should_close s) (registered s)
       (trace s ++ map (EvWrite master_fd) (filter truthy (map snd fs))),
     Normal tt).
Proof.
  intros Hwf Hin. rewrite feed_run.
  rewrite (data_frames_run fs Hwf (extend (data_frames fs) s)).
  - reflexivity.
  - unfold extend. simpl. rewrite Hin. reflexivity.
Qed.

(** ** The event loop, event by event *)

Lemma preserves_on_stdin_events (P : event -> Prop) :
  (forall r, P (EvRead stdin_fd 65536 r)) ->
  (forall e, frame_event e -> P e) ->
  preserves (fun _ => True) P on_stdin.
Proof.
  intros Hr Hf. unfold on_stdin. apply preserves_bind.
  - apply preserves_os_read; auto.
  - intros chunk. destruct (truthy chunk).
    + intros s s' o _ H. apply feed_effect in H.
      destruct H as (_ & Hg & _). split; [exact I|].
      eapply grows_weaken; [exact Hf | exact Hg].
    + apply preserves_bind.
      * intros s s' o _ H. unfold selector_unregister in H.
        destruct (is_registered KStdin s); injection H as <- <-;
          (split; [exact I | exists []; simpl; rewrite app_nil_r; auto]).
      * intros _ s s' o _ H. injection H as <- <-.
        split; [exact I | apply grows_refl].
Qed.

Lemma preserves_handle_key_events (P : event -> Prop) (k : Key) :
  (forall fd r, fd = stdin_fd \/ fd = master_fd -> P (EvRead fd 65536 r)) ->
  (forall data, P (EvWrite stdout_fd data)) ->
  (forall r, P (EvWaitpid child_pid 0 r)) ->
  (forall e, frame_event e -> P e) ->
  preserves (fun _ => True) P (handle_key k).
Proof.
  intros Hr Hw Hp Hf s s' o Hi H. destruct k.
  - rewrite handle_key_stdin in H. revert s s' o Hi H.
    apply preserves_on_stdin_events; auto.
  - rewrite handle_key_pty in H. revert s s' o Hi H.
    apply (preserves_on_pty (fun _ => True) P); auto.
Qed.

Lemma preserves_loop_body_events (P : event -> Prop) :
  (forall watched ready, P (EvSelect watched ready)) ->
  (forall fd r, fd = stdin_fd \/ fd = master_fd -> P (EvRead fd 65536 r)) ->
  (forall data, P (EvWrite stdout_fd data)) ->
  (forall options r, P (EvWaitpid child_pid options r)) ->
  (forall sig r, P (EvKill child_pid sig r)) ->
  (forall e, frame_event e -> P e) ->
  preserves (fun _ => True) P loop_body.
Proof.
  intros Hs Hr Hw Hp Hk Hf. unfold loop_body.
  apply preserves_bind; [|intros _; apply preserves_bind].
  - unfold read_phase. apply preserves_bind.
    + intros s s' o _ H. injection H as <- <-.
      split; [exact I | apply grows_log, Hs].
    + intros keys. apply preserves_for_each. intros k _.
      apply preserves_handle_key_events; auto.
  - apply preserves_close_phase; auto.
  - intros _. apply preserves_reap_phase; auto.
Qed.

Lemma frame_event_scoped (e : event) : frame_event e -> scoped e.
Proof.
  destruct e as [| | | |pid [] r|]; simpl; intros H; auto; contradiction.
Qed.

(** *** Forwarding of PTY output *)

Lemma writes_to_app (fd : Z) (t1 t2 : list event) :
  writes_to fd (t1 ++ t2) = writes_to fd t1 ++ writes_to fd t2.
Proof. unfold writes_to. apply flat_map_app. Qed.

Lemma data_read_from_app (fd : Z) (t1 t2 : list event) :
  data_read_from fd (t1 ++ t2) = data_read_from fd t1 ++ data_read_from fd t2.
Proof. unfold data_read_from. apply flat_map_app. Qed.

Lemma neutral_events (evs : list event) :
  Forall pty_neutral evs ->
  writes_to stdout_fd evs = [] /\ data_read_from master_fd evs = [].
Proof.
  induction 1 as [|e evs [Hw Hr] _ [IHw IHr]]; [split; reflexivity|].
  change (e :: evs) with ([e] ++ evs).
  rewrite writes_to_app, data_read_from_app, Hw, Hr, IHw, IHr.
  split; reflexivity.
Qed.

Lemma grows_neutral_forwarded (s s' : state) :
  grows_by pty_neutral s s' -> forwarded s -> forwarded s'.
Proof.
  intros (evs & Ht & Hf) Hs. unfold forwarded in *.
  destruct (neutral_events evs Hf) as [Hw Hr].
  rewrite Ht, writes_to_app, data_read_from_app, Hw, Hr, !app_nil_r.
  exact Hs.
Qed.

Lemma neutral_keeps_forwarded {A} (m : M A) :
  preserves (fun _ => True) pty_neutral m ->
  preserves forwarded (fun _ => True) m.
Proof.
  intros Hm s s' o Hs H. destruct (Hm s s' o I H) as [_ Hg].
  split; [eapply grows_neutral_forwarded; eauto|].
  eapply grows_weaken; [|exact Hg]. auto.
Qed.

Lemma frame_event_neutral (e : event) :
  master_fd <> stdout_fd -> frame_event e -> pty_neutral e.
Proof.
  intros Hne. destruct e as [| |fd data| |pid [] r|]; simpl;
    intros H; try contradiction; try (split; reflexivity).
  subst fd. unfold pty_neutral. simpl.
  destruct (Z.eqb_spec master_fd stdout_fd); [contradiction|].
  split; reflexivity.
Qed.

Lemma read_stdin_neutral (r : exn + bytes) :
  stdin_fd <> master_fd -> pty_neutral (EvRead stdin_fd 65536 r).
Proof.
  intros Hne. unfold pty_neutral. simpl. split; [reflexivity|].
  destruct r as [e|data]; [reflexivity|].
  destruct (Z.eqb_spec stdin_fd master_fd); [contradiction | reflexivity].
Qed.

Lemma on_pty_forwarded :
  preserves forwarded (fun _ => True) on_pty.
Proof.
  intros s s' o Hs H. split.
  2:{ revert s s' o Hs H.
      assert (Hp : preserves (fun _ => True) (fun _ : event => True) on_pty)
        by (apply preserves_on_pty; auto).
      intros s s' o _ H. apply (Hp s s' o I H). }
  unfold forwarded in *.
  unfold on_pty, bind, try_except, os_read in H.
  destruct (env_read env (trace s) master_fd 65536) as [e|data] eqn:Hread;
    cbv zeta in H.
  - assert (Hn : writes_to stdout_fd (trace s') = writes_to stdout_fd (trace s)
                 /\ data_read_from master_fd (trace s')
                    = data_read_from master_fd (trace s)).
    { destruct (isinstance e OSError).
      - injection H as <- _. simpl.
        rewrite <- app_assoc, writes_to_app, data_read_from_app. simpl.
        rewrite !app_nil_r. auto.
      - injection H as <- _. simpl.
        rewrite writes_to_app, data_read_from_app. simpl.
        rewrite !app_nil_r. auto. }
    destruct Hn as [-> ->]. exact Hs.
  - destruct (truthy data) eqn:Htr.
    + injection H as <- _. simpl.
      rewrite <- app_assoc, writes_to_app, data_read_from_app. simpl.
      rewrite !Z.eqb_refl, Htr. simpl. rewrite Hs. reflexivity.
    + injection H as <- _. simpl.
      rewrite <- app_assoc, writes_to_app, data_read_from_app. simpl.
      rewrite Z.eqb_refl, Htr. simpl. rewrite !app_nil_r. exact Hs.
Qed.

Lemma loop_body_forwarded :
  stdin_fd <> master_fd ->
  master_fd <> stdout_fd ->
  preserves forwarded (fun _ => True) loop_body.
Proof.
  intros H1 H2. unfold loop_body.
  apply preserves_bind; [|intros _; apply preserves_bind].
  - unfold read_phase. apply preserves_bind.
    + apply neutral_keeps_forwarded.
      intros s s' o _ H. injection H as <- <-.
      split; [exact I | apply grows_log; split; reflexivity].
    + intros keys. apply preserves_for_each. intros k _.
      destruct k.
      * intros s s' o Hs H. rewrite handle_key_stdin in H.
        revert s s' o Hs H. apply neutral_keeps_forwarded.
        apply preserves_on_stdin_events.
        -- intros r. apply read_stdin_neutral, H1.
        -- intros e. apply frame_event_neutral, H2.
      * intros s s' o Hs H. rewrite handle_key_pty in H.
        revert s s' o Hs H. apply on_pty_forwarded.
  - apply neutral_keeps_forwarded.
    apply preserves_close_phase; auto. intros r. split; reflexivity.
  - intros _. apply neutral_keeps_forwarded.
    apply preserves_reap_phase; auto. intros r. split; reflexivity.
Qed.

(** ** Where returns and exceptions come from *)

Lemma traced_bind {A B} (m : M A) (k : A -> M B) :
  traced m -> (forall a, traced (k a)) -> traced (bind m k).
Proof.
  intros Hm Hk s s' o H. unfold bind in H.
  destruct (m s) as [s1 o1] eqn:Hms. pose proof (Hm _ _ _ Hms) as H1.
  destruct o1 as [a| | |c|e|];
    try (injection H as <- <-; exact H1).
  exact (Hk a _ _ _ H).
Qed.

Lemma traced_while (body : M unit) (fuel : nat) :
  traced body -> traced (while_true fuel body).
Proof.
  intros Hb. induction fuel as [|fuel IH]; intros s s' o H; simpl in H.
  - injection H as <- <-. exact I.
  - destruct (body s) as [s1 o1] eqn:Hbs. pose proof (Hb _ _ _ Hbs) as H1.
    destruct o1 as [a| | |c|e|];
      try (injection H as <- <-; first [exact H1 | exact I]);
      exact (IH _ _ _ H).
Qed.

Lemma fault_origin_last (e : exn) (t : list event) (ev : event) :
  match ev with
  | EvRead fd n (inl e') =>
      e' = e /\ n = 65536
      /\ (fd = stdin_fd \/ (fd = master_fd /\ isinstance e OSError = false))
  | EvKill pid SIGWINCH (Some e') => e' = e /\ pid = child_pid
  | EvKill pid SIGHUP (Some e') =>
      e' = e /\ pid = child_pid /\ isinstance e ProcessLookupError = false
  | _ => False
  end ->
  fault_origin e (t ++ [ev]).
Proof. intros H. exists t, ev. auto. Qed.

Lemma on_stdin_traced (s s' : state) (o : outcome unit) :
  is_registered KStdin s = true ->
  on_stdin s = (s', o) -> abrupt_origin o s'.
Proof.
  intros Hreg H. unfold on_stdin, bind, os_read in H.
  destruct (env_read env (trace s) stdin_fd 65536) as [e|chunk] eqn:Hread;
    cbv zeta in H.
  - injection H as <- <-. simpl. apply fault_origin_last. auto.
  - destruct (truthy chunk).
    + rewrite feed_run in H.
      pose proof (decode_run_completes
                    (extend chunk (log (EvRead stdin_fd 65536 (inr chunk)) s)))
        as Hc.
      rewrite H in Hc. destruct Hc as [Hc | [e Hc]]; simpl in Hc; subst o;
        [exact I|].
      unfold decode_run in H. apply decode_while_raise in H.
      destruct H as (t & ws & Ht & _). simpl. rewrite Ht.
      change [EvIoctl master_fd TIOCSWINSZ ws;
              EvKill child_pid SIGWINCH (Some e)]
        with ([EvIoctl master_fd TIOCSWINSZ ws]
                ++ [EvKill child_pid SIGWINCH (Some e)]).
      rewrite app_assoc. apply fault_origin_last. auto.
    + unfold selector_unregister in H.
      change (is_registered KStdin (log (EvRead stdin_fd 65536 (inr chunk)) s))
        with (is_registered KStdin s) in H.
      rewrite Hreg in H. injection H as <- <-. exact I.
Qed.

Lemma on_pty_traced : traced on_pty.
Proof.
  intros s s' o H. unfold on_pty, bind, try_except, os_read in H.
  destruct (env_read env (trace s) master_fd 65536) as [e|data];
    cbv zeta in H.
  - destruct (isinstance e OSError) eqn:He.
    + injection H as <- <-. simpl.
      eexists _, 0, _. split; reflexivity.
    + injection H as <- <-. simpl. apply fault_origin_last. auto.
  - destruct (truthy data).
    + injection H as <- <-. exact I.
    + injection H as <- <-. simpl.
      eexists _, 0, _. split; reflexivity.
Qed.

Lemma close_phase_traced : traced close_phase.
Proof.
  intros s s' o H. unfold close_phase, bind, get, try_except, os_kill in H.
  destruct (should_close s); [|injection H as <- <-; exact I].
  destruct (env_kill env (trace s) child_pid SIGHUP) as [e|]; cbv zeta in H.
  - destruct (isinstance e ProcessLookupError) eqn:He.
    + injection H as <- <-. exact I.
    + injection H as <- <-. simpl. apply fault_origin_last. auto.
  - injection H as <- <-. exact I.
Qed.

Lemma reap_phase_traced : traced reap_phase.
Proof.
  intros s s' o H. unfold reap_phase, bind, os_waitpid in H. cbv zeta in H.
  set (r := if WNOHANG =? WNOHANG
            then match env_poll env (trace s) with
                 | Some status => (child_pid, status)
                 | None => (0, 0)
                 end
            else (child_pid, env_wait env (trace s))) in *.
  destruct (Z.eqb_spec (fst r) child_pid) as [Heq|Hne].
  - injection H as <- <-. simpl.
    exists (trace s), WNOHANG, (snd r). split; [|reflexivity].
    rewrite <- Heq. destruct r; reflexivity.
  - injection H as <- <-. exact I.
Qed.

Lemma unregister_keeps_pty (l : list Key) :
  existsb (Key_eqb KPty) (filter (fun k' => negb (Key_eqb KStdin k')) l)
  = existsb (Key_eqb KPty) l.
Proof.
  induction l as [|k l IH]; [reflexivity|].
  destruct k; simpl; [exact IH | reflexivity].
Qed.

(** Handling one key leaves the registration of the other key alone. *)
Lemma handle_key_other (k k' : Key) (s s' : state) (o : outcome unit) :
  handle_key k s = (s', o) -> k' <> k ->
  is_registered k' s' = is_registered k' s.
Proof.
  intros H Hne. destruct k.
  - destruct k'; [congruence|]. rewrite handle_key_stdin in H.
    unfold on_stdin, bind, os_read in H.
    destruct (env_read env (trace s) stdin_fd 65536) as [e|chunk];
      cbv zeta in H.
    + injection H as <- _. reflexivity.
    + destruct (truthy chunk).
      * apply feed_effect in H. destruct H as (Hr & _).
        unfold is_registered. rewrite Hr. reflexivity.
      * unfold selector_unregister in H.
        destruct (is_registered KStdin
                    (log (EvRead stdin_fd 65536 (inr chunk)) s));
          injection H as <- _; [|reflexivity].
        unfold is_registered. simpl. apply unregister_keeps_pty.
  - rewrite handle_key_pty in H.
    assert (Hp : preserves (fun s1 => registered s1 = registered s)
                           (fun _ => True) on_pty)
      by (apply preserves_on_pty; auto).
    destruct (Hp s s' o eq_refl H) as [Hr _].
    unfold is_registered. rewrite Hr. reflexivity.
Qed.

Lemma handle_key_traced (k : Key) (s s' : state) (o : outcome unit) :
  is_registered k s = true ->
  handle_key k s = (s', o) -> abrupt_origin o s'.
Proof.
  intros Hreg H. destruct k.
  - rewrite handle_key_stdin in H. eapply on_stdin_traced; eauto.
  - rewrite handle_key_pty in H. eapply on_pty_traced; eauto.
Qed.

Lemma for_each_keys_traced (keys : list Key) :
  NoDup keys ->
  forall s s' o,
    (forall k, In k keys -> is_registered k s = true) ->
    for_each keys handle_key s = (s', o) -> abrupt_origin o s'.
Proof.
  induction 1 as [|k keys Hnotin Hnd IH]; intros s s' o Hreg H;
    simpl in H.
  - injection H as <- <-. exact I.
  - destruct (handle_key k s) as [s1 o1] eqn:Hk.
    pose proof (handle_key_traced k s s1 o1 (Hreg k (or_introl eq_refl)) Hk)
      as H1.
    assert (Hrest : forall k', In k' keys -> is_registered k' s1 = true).
    { intros k' Hin.
      rewrite (handle_key_other k k' s s1 o1 Hk)
        by (intros ->; contradiction).
      apply Hreg. right. exact Hin. }
    destruct o1 as [a| | |c|e|];
      try (injection H as <- <-; first [exact H1 | exact I]);
      exact (IH _ _ _ Hrest H).
Qed.

Lemma ready_keys_NoDup (r : readiness) : NoDup (ready_keys r).
Proof.
  destruct r; simpl; repeat constructor; simpl; intuition discriminate.
Qed.

Lemma read_phase_traced : traced read_phase.
Proof.
  intros s s' o H. unfold read_phase, bind, selector_select in H.
  cbv zeta in H.
  eapply for_each_keys_traced; [| |exact H].
  - apply NoDup_filter, ready_keys_NoDup.
  - intros k Hin. apply filter_In in Hin. exact (proj2 Hin).
Qed.

Lemma loop_body_traced : traced loop_body.
Proof.
  unfold loop_body. apply traced_bind; [apply read_phase_traced|].
  intros _. apply traced_bind; [apply close_phase_traced|].
  intros _. apply reap_phase_traced.
Qed.

(** *** Hangups per iteration *)

Lemma close_phase_sighups (s s' : state) (o : outcome unit) :
  close_phase s = (s', o) ->
  (sighups (trace s') <= sighups (trace s) + 1)%nat.
Proof.
  intros H. unfold close_phase, bind, get, try_except, os_kill in H.
  destruct (should_close s); [|injection H as <- _; lia].
  destruct (env_kill env (trace s) child_pid SIGHUP) as [e|]; cbv zeta in H.
  - destruct (isinstance e ProcessLookupError);
      injection H as <- _; simpl; rewrite sighups_app;
      change (sighups [EvKill child_pid SIGHUP (Some e)]) with 1%nat; lia.
  - injection H as <- _; simpl; rewrite sighups_app.
    change (sighups [EvKill child_pid SIGHUP None]) with 1%nat. lia.
Qed.

Lemma loop_body_sighups (s s' : state) (o : outcome unit) :
  loop_body s = (s', o) ->
  (sighups (trace s') <= sighups (trace s) + 1)%nat.
Proof.
  intros H. unfold loop_body, bind in H.
  destruct (read_phase s) as [s1 o1] eqn:Hr.
  assert (H1 : sighups (trace s1) = sighups (trace s)).
  { apply grows_sighups. eapply preserves_read_phase_no_sighup; eauto. }
  destruct o1 as [[]| | |c|e|]; try (injection H as <- _; lia).
  destruct (close_phase s1) as [s2 o2] eqn:Hc.
  pose proof (close_phase_sighups _ _ _ Hc) as H2.
  destruct o2 as [[]| | |c|e|]; try (injection H as <- _; lia).
  assert (H3 : sighups (trace s') = sighups (trace s2)).
  { apply grows_sighups.
    eapply (preserves_reap_phase (fun _ => True) no_sighup); eauto.
    reflexivity. }
  lia.
Qed.

(** ** Further properties of the event loop *)

(** X6: whatever it is given and however long it runs, the loop only reads
    the control input and the PTY master, only writes to the PTY master and
    the output, only resizes the PTY master, and only signals and waits for
    its own child. *)
Theorem bridge_stays_in_scope (n : nat) (s : state) :
  grows_by scoped s (fst (main_loop n s)).
Proof.
  assert (Hb : preserves (fun _ => True) scoped loop_body).
  { apply preserves_loop_body_events; simpl; auto.
    apply frame_event_scoped. }
  unfold main_loop.
  destruct (while_true n loop_body s) as [s' o] eqn:Hrun.
  exact (proj2 (preserves_while (fun _ => True) scoped loop_body n Hb
                  s s' o I Hrun)).
Qed.

(** X7: what is written to the output is what was read from the PTY master:
    every non-empty read of the master is followed by one write of the same
    bytes to the output, in the same order, and nothing else is ever written
    there. *)
Theorem pty_output_forwarded (n : nat) :
  stdin_fd <> master_fd ->
  master_fd <> stdout_fd ->
  (forall s, forwarded s -> forwarded (fst (main_loop n s)))
  /\ forwarded (fst (main_loop n initial_state)).
Proof.
  intros H1 H2.
  assert (Hall : forall s, forwarded s -> forwarded (fst (main_loop n s))).
  { intros s Hs. unfold main_loop.
    destruct (while_true n loop_body s) as [s' o] eqn:Hrun.
    exact (proj1 (preserves_while forwarded (fun _ => True) loop_body n
                    (loop_body_forwarded H1 H2) s s' o Hs Hrun)). }
  split; [exact Hall|]. apply Hall. reflexivity.
Qed.

(** X8: an exit code returned by [main] is either the usage code 2, given
    when there is no command and before any system call, or the mapped
    status of the child, the last system call being the wait that reaped
    it. *)
Theorem main_exit_code (argv : list String.string) (n : nat) (s' : state)
        (code : Z) :
  main argv n = (s', Return code) ->
  (len argv < 2 /\ code = 2 /\ trace s' = [])
  \/ (2 <= len argv /\ return_origin code (trace s')).
Proof.
  unfold main. destruct (Z.ltb_spec (len argv) 2) as [Hlt|Hge]; intros H.
  - left. injection H as <- <-. auto.
  - right. split; [exact Hge|].
    exact (traced_while loop_body n loop_body_traced _ _ _ H).
Qed.

Lemma loop_body_flag (s s' : state) :
  loop_body s = (s', Normal tt) -> should_close s' = false.
Proof.
  intros H. unfold loop_body, bind in H.
  destruct (read_phase s) as [s1 [[]| | |c|e|]]; try discriminate.
  destruct (close_phase s1) as [s2 o2] eqn:Hc.
  assert (Hflag : o2 = Normal tt -> should_close s2 = false).
  { intros ->. unfold close_phase, bind, get, try_except, os_kill in Hc.
    destruct (should_close s1) eqn:Hsc.
    - destruct (env_kill env (trace s1) child_pid SIGHUP) as [e|];
        cbv zeta in Hc.
      + destruct (isinstance e ProcessLookupError);
          [injection Hc as <-; reflexivity | discriminate].
      + injection Hc as <-. reflexivity.
    - injection Hc as <-. exact Hsc. }
  destruct o2 as [[]| | |c|e|]; try discriminate.
  unfold reap_phase, bind, os_waitpid in H. cbv zeta in H.
  match type of H with
  | (if ?b then _ else _) _ = _ => destruct b
  end; [discriminate|].
  injection H as <-. simpl. apply Hflag. reflexivity.
Qed.

(** X10: an iteration sends at most one SIGHUP, so [n] iterations send at
    most [n]; and an iteration that completes leaves the close-requested
    flag cleared. *)
Theorem hangups_bounded (n : nat) (s : state) :
  (sighups (trace (fst (main_loop n s))) <= sighups (trace s) + n)%nat
  /\ (forall s', loop_body s = (s', Normal tt) -> should_close s' = false).
Proof.
  split; [|intros s'; apply loop_body_flag].
  unfold main_loop. revert s.
  induction n as [|n IH]; intros s; simpl; [lia|].
  destruct (loop_body s) as [s1 o1] eqn:Hb.
  pose proof (loop_body_sighups _ _ _ Hb) as H1.
  destruct o1 as [[]| | |c|e|]; simpl; try lia;
    specialize (IH s1); lia.
Qed.

(** X12: when the read phase returns, on PTY end of file, the iteration ends
    there: the close phase is skipped, so a close request decoded in that
    same iteration sends no SIGHUP. *)
Theorem return_skips_close_phase (s s1 : state) (code : Z) :
  read_phase s = (s1, Return code) ->
  loop_body s = (s1, Return code)
  /\ sighups (trace s1) = sighups (trace s)
  /\ (forall n, main_loop (S n) s = (s1, Return code)).
Proof.
  intros Hr.
  assert (Hb : loop_body s = (s1, Return code))
    by (unfold loop_body, bind; rewrite Hr; reflexivity).
  split; [exact Hb|]. split.
  - apply grows_sighups. eapply preserves_read_phase_no_sighup; eauto.
  - intros n. unfold main_loop. apply while_true_return. exact Hb.
Qed.

(** X13: an iteration whose read and close phases complete ends with a
    non-blocking wait; if that finds the child exited, the loop returns the
    mapped status at once, with no PTY event needed. *)
Theorem reap_poll_ends_loop (s s1 s2 : state) (status : Z) :
  read_phase s = (s1, Normal tt) ->
  close_phase s1 = (s2, Normal tt) ->
  env_poll env (trace s2) = Some status ->
  forall n,
    main_loop (S n) s =
      (log (EvWaitpid child_pid WNOHANG (child_pid, status)) s2,
       Return (_exit_code_from_status status)).
Proof.
  intros Hr Hc Hp n. unfold main_loop. apply while_true_return.
  unfold loop_body, bind at 1. rewrite Hr.
  unfold bind at 1. rewrite Hc.
  unfold reap_phase, bind, os_waitpid. rewrite Z.eqb_refl, Hp.
  cbn [fst snd]. rewrite Z.eqb_refl. reflexivity.
Qed.

(** ** Exceptions the loop could raise of its own *)

Lemma answered_bind {A B} (m : M A) (k : A -> M B) :
  answered m -> (forall a, answered (k a)) -> answered (bind m k).
Proof.
  intros Hm Hk s s' e H. unfold bind in H.
  destruct (m s) as [s1 o1] eqn:Hms.
  destruct o1 as [a| | |c|e1|]; try discriminate.
  - exact (Hk a _ _ _ H).
  - injection H as <- <-. exact (Hm _ _ _ Hms).
Qed.

Lemma answered_while (body : M unit) (fuel : nat) :
  answered body -> answered (while_true fuel body).
Proof.
  intros Hb. induction fuel as [|fuel IH]; intros s s' e H; simpl in H;
    [discriminate|].
  destruct (body s) as [s1 o1] eqn:Hbs.
  destruct o1 as [a| | |c|e1|]; try discriminate;
    try exact (IH _ _ _ H).
  injection H as <- <-. exact (Hb _ _ _ Hbs).
Qed.

Lemma on_stdin_answered (s s' : state) (e : exn) :
  is_registered KStdin s = true ->
  on_stdin s = (s', Raise e) -> env_raises e.
Proof.
  intros Hreg H. unfold on_stdin, bind, os_read in H.
  destruct (env_read env (trace s) stdin_fd 65536) as [e1|chunk] eqn:Hread;
    cbv zeta in H.
  - injection H as _ <-. left. eauto.
  - destruct (truthy chunk).
    + rewrite feed_run in H. unfold decode_run in H.
      destruct (decode_while_raise _ _ _ _ H) as (t & ws & _ & Hk).
      right. eauto.
    + unfold selector_unregister in H.
      change (is_registered KStdin (log (EvRead stdin_fd 65536 (inr chunk)) s))
        with (is_registered KStdin s) in H.
      rewrite Hreg in H. discriminate.
Qed.

Lemma on_pty_answered : answered on_pty.
Proof.
  intros s s' e H. unfold on_pty, bind, try_except, os_read in H.
  destruct (env_read env (trace s) master_fd 65536) as [e1|data] eqn:Hread;
    cbv zeta in H.
  - destruct (isinstance e1 OSError); [discriminate|].
    injection H as _ <-. left. eauto.
  - destruct (truthy data); discriminate.
Qed.

Lemma close_phase_answered : answered close_phase.
Proof.
  intros s s' e H. unfold close_phase, bind, get, try_except, os_kill in H.
  destruct (should_close s); [|discriminate].
  destruct (env_kill env (trace s) child_pid SIGHUP) as [e1|] eqn:Hk;
    cbv zeta in H; [|discriminate].
  destruct (isinstance e1 ProcessLookupError); [discriminate|].
  injection H as _ <-. right. eauto.
Qed.

Lemma reap_phase_answered : answered reap_phase.
Proof.
  intros s s' e H. unfold reap_phase, bind, os_waitpid in H. cbv zeta in H.
  match type of H with
  | (if ?b then _ else _) _ = _ => destruct b
  end; discriminate.
Qed.

Lemma for_each_keys_answered (keys : list Key) :
  NoDup keys ->
  forall s s' e,
    (forall k, In k keys -> is_registered k s = true) ->
    for_each keys handle_key s = (s', Raise e) -> env_raises e.
Proof.
  induction 1 as [|k keys Hnotin Hnd IH]; intros s s' e Hreg H;
    simpl in H; [discriminate|].
  destruct (handle_key k s) as [s1 o1] eqn:Hk.
  assert (Hrest : forall k', In k' keys -> is_registered k' s1 = true).
  { intros k' Hin.
    rewrite (handle_key_other k k' s s1 o1 Hk)
      by (intros ->; contradiction).
    apply Hreg. right. exact Hin. }
  destruct o1 as [a| | |c|e1|]; try discriminate;
    try exact (IH _ _ _ Hrest H).
  injection H as _ <-.
  pose proof (Hreg k (or_introl eq_refl)) as Hkreg.
  destruct k.
  - rewrite handle_key_stdin in Hk. eapply on_stdin_answered; eauto.
  - rewrite handle_key_pty in Hk. eapply on_pty_answered; eauto.
Qed.

Lemma read_phase_answered : answered read_phase.
Proof.
  intros s s' e H. unfold read_phase, bind, selector_select in H.
  cbv zeta in H.
  eapply for_each_keys_answered; [| |exact H].
  - apply NoDup_filter, ready_keys_NoDup.
  - intros k Hin. apply filter_In in Hin. exact (proj2 Hin).
Qed.

Lemma loop_body_answered : answered loop_body.
Proof.
  unfold loop_body. apply answered_bind; [apply read_phase_answered|].
  intros _. apply answered_bind; [apply close_phase_answered|].
  intros _. apply reap_phase_answered.
Qed.

(** X9: the selector never fails a lookup: [selector.unregister] is only
    reached for a key that [select] just returned, and at most once for it,
    so, from any state and however long the loop runs, no [KeyError] leaves
    it. *)
Theorem unregister_never_fails (n : nat) (s s' : state) :
  ~ env_raises KeyError ->
  main_loop n s <> (s', Raise KeyError).
Proof.
  intros Henv H. apply Henv.
  exact (answered_while loop_body n loop_body_answered _ _ _ H).
Qed.

(** ** After the control input has ended *)









(** ** The control stream and what it does to the PTY master *)

Lemma frames_upto_any (fuel1 : nat) :
  forall fuel2 b,
    (length b < fuel1)%nat -> (length b < fuel2)%nat ->
    frames_upto fuel1 b = frames_upto fuel2 b.
Proof.
  induction fuel1 as [|fuel1 IH]; intros fuel2 b H1 H2; [lia|].
  destruct fuel2 as [|fuel2]; [lia|]. simpl.
  pose proof (decode_next_shorter b) as Hs.
  destruct (decode_next b) as [|f rest|rest];
    [reflexivity | f_equal; apply IH; lia | apply IH; lia].
Qed.

Lemma rest_upto_any (fuel1 : nat) :
  forall fuel2 b,
    (length b < fuel1)%nat -> (length b < fuel2)%nat ->
    rest_upto fuel1 b = rest_upto fuel2 b.
Proof.
  induction fuel1 as [|fuel1 IH]; intros fuel2 b H1 H2; [lia|].
  destruct fuel2 as [|fuel2]; [lia|]. simpl.
  pose proof (decode_next_shorter b) as Hs.
  destruct (decode_next b) as [|f rest|rest];
    [reflexivity | apply IH; lia | apply IH; lia].
Qed.

Lemma frames_step (b : bytes) :
  frames b =
  match decode_next b with
  | NeedMoreBytes => []
  | Decoded f rest => f :: frames rest
  | Resync rest => frames rest
  end.
Proof.
  unfold frames at 1. cbn [frames_upto].
  pose proof (decode_next_shorter b) as Hs.
  destruct (decode_next b) as [|f rest|rest];
    [reflexivity | f_equal; unfold frames; apply frames_upto_any; lia
     | unfold frames; apply frames_upto_any; lia].
Qed.

Lemma rest_step (b : bytes) :
  rest_of b =
  match decode_next b with
  | NeedMoreBytes => b
  | Decoded _ rest => rest_of rest
  | Resync rest => rest_of rest
  end.
Proof.
  unfold rest_of at 1. cbn [rest_upto].
  pose proof (decode_next_shorter b) as Hs.
  destruct (decode_next b) as [|f rest|rest];
    [reflexivity | unfold rest_of; apply rest_upto_any; lia
     | unfold rest_of; apply rest_upto_any; lia].
Qed.

(** Decoding a stream is decoding a first part of it and then what that
    left, followed by the second part. *)
Lemma frames_rest_app (n : nat) :
  forall b c,
    (length b < n)%nat ->
    frames (b ++ c) = frames b ++ frames (rest_of b ++ c)
    /\ rest_of (b ++ c) = rest_of (rest_of b ++ c).
Proof.
  induction n as [|n IH]; intros b c Hlt; [lia|].
  pose proof (decode_next_shorter b) as Hs.
  pose proof (decode_next_app b c) as Happ.
  rewrite (frames_step b), (rest_step b).
  destruct (decode_next b) as [|f rest|rest] eqn:Hd.
  - split; reflexivity.
  - rewrite (frames_step (b ++ c)), (rest_step (b ++ c)), Happ.
    destruct (IH rest c ltac:(lia)) as [Hf Hr].
    rewrite Hf, Hr. split; reflexivity.
  - rewrite (frames_step (b ++ c)), (rest_step (b ++ c)), Happ.
    apply IH. lia.
Qed.

Lemma master_effects_app (t1 t2 : list event) :
  master_effects (t1 ++ t2) = master_effects t1 ++ master_effects t2.
Proof. unfold master_effects. apply filter_app. Qed.

Lemma frame_effects_app (l1 l2 : list Frame) :
  frame_effects (l1 ++ l2) = frame_effects l1 ++ frame_effects l2.
Proof. unfold frame_effects. apply flat_map_app. Qed.

Lemma control_stream_app (t1 t2 : list event) :
  control_stream (t1 ++ t2) = control_stream t1 ++ control_stream t2.
Proof.
  unfold control_stream. rewrite data_read_from_app. apply concat_app.
Qed.

(** What the dispatch of a decoded frame adds to the effects on the PTY
    master, when it completes. *)
Lemma dispatch_master_effects (b rest : bytes) (f : Frame) (s0 s1 : state) :
  decode_next b = Decoded f rest ->
  dispatch f s0 = (s1, Normal tt) ->
  incoming s1 = incoming s0
  /\ master_effects (trace s1)
     = master_effects (trace s0) ++ frame_effects [f].
Proof.
  intros Hd H. destruct f as [payload|cols rows|]; simpl in H.
  - unfold frame_effects. simpl. destruct (truthy payload).
    + injection H as <-. simpl. rewrite master_effects_app. simpl.
      rewrite Z.eqb_refl. auto.
    + injection H as <-. rewrite app_nil_r. auto.
  - destruct (decode_next_resize_range _ _ _ _ Hd) as [Hc Hr].
    unfold bind, _set_winsize in H.
    rewrite (pack_HHHH_ushort rows cols Hr Hc) in H.
    unfold fcntl_ioctl, modify, os_kill, log in H. simpl in H.
    destruct (env_kill env
                (trace s0 ++ [EvIoctl master_fd TIOCSWINSZ
                                (mk_winsize rows cols 0 0)])
                child_pid SIGWINCH); [discriminate|].
    injection H as <-. simpl. rewrite !master_effects_app. simpl.
    rewrite app_nil_r. auto.
  - injection H as <-. simpl. rewrite app_nil_r. auto.
Qed.

Lemma decode_while_stream (fuel : nat) :
  forall s s',
    while_true fuel decode_pass s = (s', Normal tt) ->
    incoming s' = rest_upto fuel (incoming s)
    /\ master_effects (trace s')
       = master_effects (trace s)
           ++ frame_effects (frames_upto fuel (incoming s)).
Proof.
  induction fuel as [|fuel IH]; intros s s' Hw; simpl in Hw;
    [discriminate|].
  rewrite decode_pass_refines in Hw. cbn [rest_upto frames_upto].
  destruct (decode_next (incoming s)) as [|f rest|rest] eqn:Hd.
  - injection Hw as <-. simpl. rewrite app_nil_r. auto.
  - destruct (dispatch f (set_incoming rest s)) as [s1 o1] eqn:Hdis.
    destruct (dispatch_cases f (set_incoming rest s))
      as (evs & o & Hdc & Ho & _).
    rewrite Hdis in Hdc. injection Hdc as Hs1 Ho1. subst o1.
    destruct Ho as [-> | [e ->]]; [|discriminate].
    destruct (dispatch_master_effects _ _ _ _ _ Hd Hdis) as [Hinc Hm].
    destruct (IH _ _ Hw) as [Hi' Hm'].
    rewrite Hinc in Hi'. simpl in Hi'. split; [exact Hi'|].
    rewrite Hm', Hm. simpl trace.
    change (f :: frames_upto fuel rest) with ([f] ++ frames_upto fuel rest).
    rewrite frame_effects_app, Hinc, app_assoc. reflexivity.
  - destruct (IH _ _ Hw) as [Hi' Hm']. simpl in *. auto.
Qed.

Lemma feed_stream (chunk : bytes) (s s' : state) :
  feed chunk s = (s', Normal tt) ->
  incoming s' = rest_of (incoming s ++ chunk)
  /\ master_effects (trace s')
     = master_effects (trace s) ++ frame_effects (frames (incoming s ++ chunk)).
Proof.
  rewrite feed_run. unfold decode_run. intros H.
  apply decode_while_stream in H. exact H.
Qed.

Lemma neutral_stream_events (evs : list event) :
  Forall stream_neutral evs ->
  master_effects evs = [] /\ data_read_from stdin_fd evs = [].
Proof.
  induction 1 as [|e evs [Hm Hr] _ [IHm IHr]]; [split; reflexivity|].
  change (e :: evs) with ([e] ++ evs).
  rewrite master_effects_app, data_read_from_app, Hm, Hr, IHm, IHr.
  split; reflexivity.
Qed.

Lemma frame_events_no_read (evs : list event) :
  Forall frame_event evs -> data_read_from stdin_fd evs = [].
Proof.
  induction 1 as [|e evs He _ IH]; [reflexivity|].
  change (e :: evs) with ([e] ++ evs). rewrite data_read_from_app, IH.
  destruct e; simpl in *; try reflexivity; contradiction.
Qed.

Lemma in_step_neutral (s s' : state) :
  in_step s -> incoming s' = incoming s -> grows_by stream_neutral s s' ->
  in_step s'.
Proof.
  intros [Hi Hm] Hinc (evs & Ht & Hf).
  destruct (neutral_stream_events evs Hf) as [Hme Hre].
  unfold in_step, control_stream in *.
  rewrite Ht, master_effects_app, data_read_from_app, Hme, Hre, !app_nil_r.
  rewrite Hinc. auto.
Qed.

Lemma neutral_keeps_in_step {A} (m : M A) :
  (forall X, preserves (fun s' => incoming s' = X) stream_neutral m) ->
  keeps in_step m.
Proof.
  intros Hm s s' o Hs H _.
  destruct (Hm (incoming s) s s' o eq_refl H) as [Hinc Hg].
  eapply in_step_neutral; eauto.
Qed.

Lemma keeps_bind {A B} (J : state -> Prop) (m : M A) (k : A -> M B) :
  keeps J m -> (forall a, keeps J (k a)) -> keeps J (bind m k).
Proof.
  intros Hm Hk s s' o Hs H Hno. unfold bind in H.
  destruct (m s) as [s1 o1] eqn:Hms.
  destruct o1 as [a| | |c|e|];
    try (injection H as <- <-; eapply Hm; eauto; discriminate).
  - eapply (Hk a); [|exact H|exact Hno].
    eapply Hm; eauto. discriminate.
  - injection H as _ <-. exfalso. exact (Hno e eq_refl).
Qed.

Lemma keeps_while (J : state -> Prop) (body : M unit) (fuel : nat) :
  keeps J body -> keeps J (while_true fuel body).
Proof.
  intros Hb. induction fuel as [|fuel IH]; intros s s' o Hs H Hno;
    simpl in H.
  - injection H as <- _. exact Hs.
  - destruct (body s) as [s1 o1] eqn:Hbs.
    destruct o1 as [a| | |c|e|];
      try (injection H as <- <-; eapply Hb; eauto; discriminate).
    + eapply IH; [|exact H|exact Hno]. eapply Hb; eauto. discriminate.
    + eapply IH; [|exact H|exact Hno]. eapply Hb; eauto. discriminate.
Qed.

Lemma keeps_for_each {K} (J : state -> Prop) (items : list K)
      (body : K -> M unit) :
  (forall k, keeps J (body k)) -> keeps J (for_each items body).
Proof.
  intros Hb. induction items as [|k items IH]; intros s s' o Hs H Hno;
    simpl in H.
  - injection H as <- _. exact Hs.
  - destruct (body k s) as [s1 o1] eqn:Hbs.
    destruct o1 as [a| | |c|e|];
      try (injection H as <- <-; eapply Hb; eauto; discriminate).
    + eapply IH; [|exact H|exact Hno]. eapply Hb; eauto. discriminate.
    + eapply IH; [|exact H|exact Hno]. eapply Hb; eauto. discriminate.
Qed.

Lemma on_stdin_in_step :
  stdin_fd <> master_fd -> keeps in_step on_stdin.
Proof.
  intros Hfd s s' o [Hi Hm] H Hno. unfold on_stdin, bind, os_read in H.
  destruct (env_read env (trace s) stdin_fd 65536) as [e|chunk] eqn:Hread;
    cbv zeta in H.
  - injection H as _ <-. exfalso. exact (Hno e eq_refl).
  - destruct (truthy chunk) eqn:Htr.
    + set (s0 := log (EvRead stdin_fd 65536 (inr chunk)) s) in *.
      assert (Ho : o = Normal tt).
      { pose proof (decode_run_completes (extend chunk s0)) as Hc.
        rewrite <- feed_run, H in Hc.
        destruct Hc as [Hc | [e Hc]]; simpl in Hc; [exact Hc|].
        exfalso. exact (Hno e Hc). }
      subst o.
      destruct (feed_stream _ _ _ H) as [Hi' Hm'].
      destruct (feed_effect _ _ _ _ H) as (_ & (evs & Ht & Hev) & _).
      assert (Hstream : control_stream (trace s')
                        = control_stream (trace s) ++ chunk).
      { rewrite Ht. unfold s0. simpl trace.
        rewrite !control_stream_app. unfold control_stream at 2 3.
        rewrite (frame_events_no_read evs Hev). simpl.
        rewrite Z.eqb_refl, Htr. simpl. rewrite !app_nil_r. reflexivity. }
      destruct (frames_rest_app (S (length (control_stream (trace s))))
                  (control_stream (trace s)) chunk ltac:(lia)) as [Hfa Hra].
      unfold in_step. rewrite Hstream, Hfa, Hra, frame_effects_app.
      rewrite Hi', Hm'. unfold s0. simpl incoming. simpl trace.
      rewrite master_effects_app. simpl. rewrite app_nil_r.
      rewrite Hi, Hm. auto.
    + unfold selector_unregister in H.
      assert (Hs0 : in_step (log (EvRead stdin_fd 65536 (inr chunk)) s)).
      { apply (in_step_neutral s); [split; assumption | reflexivity|].
        apply grows_log. split; [reflexivity|]. simpl.
        rewrite Z.eqb_refl, Htr. reflexivity. }
      destruct (is_registered KStdin
                  (log (EvRead stdin_fd 65536 (inr chunk)) s)).
      * injection H as <- _. exact Hs0.
      * injection H as _ <-. exfalso. exact (Hno KeyError eq_refl).
Qed.

Lemma read_master_stream_neutral (n : Z) (r : exn + bytes) :
  stdin_fd <> master_fd -> stream_neutral (EvRead master_fd n r).
Proof.
  intros Hfd. split; [reflexivity|]. simpl.
  destruct r as [e|data]; [reflexivity|].
  destruct (Z.eqb_spec master_fd stdin_fd); [congruence | reflexivity].
Qed.

Lemma write_stdout_stream_neutral (data : bytes) :
  master_fd <> stdout_fd -> stream_neutral (EvWrite stdout_fd data).
Proof.
  intros Hfd. split; [|reflexivity]. simpl.
  destruct (Z.eqb_spec stdout_fd master_fd); [congruence | reflexivity].
Qed.

Lemma loop_body_in_step :
  stdin_fd <> master_fd ->
  master_fd <> stdout_fd ->
  keeps in_step loop_body.
Proof.
  intros H1 H2. unfold loop_body.
  apply keeps_bind; [|intros _; apply keeps_bind].
  - unfold read_phase. apply keeps_bind.
    + apply neutral_keeps_in_step. intros X s s' o Hs H.
      injection H as <- <-.
      split; [exact Hs | apply grows_log; split; reflexivity].
    + intros keys. apply keeps_for_each. intros k.
      destruct k.
      * intros s s' o Hs H. rewrite handle_key_stdin in H.
        revert s s' o Hs H. apply on_stdin_in_step, H1.
      * intros s s' o Hs H. rewrite handle_key_pty in H.
        revert s s' o Hs H. apply neutral_keeps_in_step. intros X.
        apply preserves_on_pty; auto.
        -- intros r. apply read_master_stream_neutral, H1.
        -- intros data. apply write_stdout_stream_neutral, H2.
        -- intros r. split; reflexivity.
  - apply neutral_keeps_in_step. intros X.
    apply preserves_close_phase; auto. intros r. split; reflexivity.
  - intros _. apply neutral_keeps_in_step. intros X.
    apply preserves_reap_phase; auto. intros r. split; reflexivity.
Qed.

(** X5: how the control stream is cut into reads does not show in what the
    bridge does to the PTY master: in every run that has not ended in an
    exception, the writes and window-size requests sent to the master, in
    their order, are those of the frames of the concatenation of all bytes
    read from the control input so far, and the buffer holds what is left
    of that concatenation after its last complete frame. *)
Theorem control_stream_determines_effects (n : nat) :
  stdin_fd <> master_fd ->
  master_fd <> stdout_fd ->
  (forall s s' o,
      in_step s -> main_loop n s = (s', o) -> (forall e, o <> Raise e) ->
      in_step s')
  /\ (forall s' o,
        main_loop n initial_state = (s', o) -> (forall e, o <> Raise e) ->
        incoming s' = rest_of (control_stream (trace s'))
        /\ master_effects (trace s')
           = frame_effects (frames (control_stream (trace s')))).
Proof.
  intros H1 H2.
  assert (Hall : forall s s' o,
             in_step s -> main_loop n s = (s', o) ->
             (forall e, o <> Raise e) -> in_step s').
  { intros s s' o Hs H Hno.
    exact (keeps_while in_step loop_body n (loop_body_in_step H1 H2)
             s s' o Hs H Hno). }
  split; [exact Hall|].
  intros s' o H Hno. apply (Hall initial_state s' o); auto.
  split; reflexivity.
Qed.

End Bridge.

(** ** Concrete runs *)

Lemma linux_status_exclusive (status : Z) :
  @status_exclusive LinuxWait status.
Proof.
  unfold status_exclusive. simpl. intros H.
  apply Z.eqb_eq in H. rewrite H. reflexivity.
Qed.

(** A DATA frame cut into three reads reaches the PTY master as one write,
    three iterations later. *)
Example split_data_frame_run :
  main_loop (chunked_env [[x01; x00]; [x00; x00; x02; x61]; [x62]])
            (macros := LinuxWait) 4242 3 0 1 3 initial_state
  = (mk_state [] false [KStdin; KPty]
       [EvSelect [KStdin; KPty] [KStdin];
        EvRead 0 65536 (inr [x01; x00]);
        EvWaitpid 4242 WNOHANG (0, 0);
        EvSelect [KStdin; KPty] [KStdin];
        EvRead 0 65536 (inr [x00; x00; x02; x61]);
        EvWaitpid 4242 WNOHANG (0, 0);
        EvSelect [KStdin; KPty] [KStdin];
        EvRead 0 65536 (inr [x62]);
        EvWrite 3 [x61; x62];
        EvWaitpid 4242 WNOHANG (0, 0)],
     OutOfFuel).
Proof. vm_compute. reflexivity. Qed.

Lemma data_frame_decoded_witness :
  decode_pass quiet_env 4242 3
    (with_incoming [x01; x00; x00; x00; x02; x61; x62; x03])
  = (mk_state [x03] false [KStdin; KPty] [EvWrite 3 [x61; x62]], Normal tt).
Proof.
  pose proof (data_frame_decoded quiet_env 4242 3
                (with_incoming [x01; x00; x00; x00; x02; x61; x62; x03])
                x01 [x00; x00; x00; x02; x61; x62; x03]
                eq_refl eq_refl) as H.
  cbv zeta in H.
  assert (Hlen : 5 + be_uint (slice 1 5 (incoming (with_incoming
                   [x01; x00; x00; x00; x02; x61; x62; x03])))
                 <= len (incoming (with_incoming
                   [x01; x00; x00; x00; x02; x61; x62; x03])))
    by (vm_compute; discriminate).
  destruct (H Hlen) as (_ & _ & _ & _ & Hp & _). exact Hp.
Defined.

Lemma exit_code_witness :
  @_exit_code_from_status LinuxWait 0 = 0
  /\ @_exit_code_from_status LinuxWait 9 = 137.
Proof.
  split.
  - destruct (@exit_code_from_status_cases LinuxWait 0
                (linux_status_exclusive 0)) as (_ & _ & _ & H & _).
    apply H; reflexivity.
  - destruct (@exit_code_from_status_cases LinuxWait 9
                (linux_status_exclusive 9)) as (_ & _ & _ & _ & H).
    apply H; reflexivity.
Defined.

Lemma unknown_opcode_witness :
  decode_loop quiet_env 4242 3
    (with_incoming [xff; x01; x00; x00; x00; x01; x61])
  = (mk_state [] false [KStdin; KPty] [EvWrite 3 [x61]], Normal tt).
Proof.
  assert (H1 : byte_val xff <> OPCODE_DATA) by (vm_compute; discriminate).
  assert (H2 : byte_val xff <> OPCODE_RESIZE) by (vm_compute; discriminate).
  assert (H3 : byte_val xff <> OPCODE_CLOSE) by (vm_compute; discriminate).
  destruct (unknown_opcode_resync quiet_env 4242 3
              (with_incoming [xff; x01; x00; x00; x00; x01; x61])
              xff [x01; x00; x00; x00; x01; x61] eq_refl H1 H2 H3)
    as (_ & Hloop & _).
  rewrite Hloop. reflexivity.
Defined.

Lemma incomplete_frame_witness :
  decode_pass quiet_env 4242 3 (with_incoming [x01; x00; x00; x00; x02; x61])
  = (with_incoming [x01; x00; x00; x00; x02; x61], Break)
  /\ for_each [[x01; x00]; [x00; x00; x02; x61]; [x62]]
              (feed quiet_env 4242 3) initial_state
     = (mk_state [] false [KStdin; KPty] [EvWrite 3 [x61; x62]], Normal tt).
Proof.
  destruct (incomplete_frame_waits quiet_env 4242 3) as [Hshort Hsplit].
  split.
  - apply Hshort. simpl. left. split; [reflexivity|].
    right. vm_compute. reflexivity.
  - destruct (Hsplit initial_state x01 [x00; x00; x00; x02] [x61; x62]
                [x01; x00] [[x00; x00; x02; x61]; [x62]]
                eq_refl eq_refl eq_refl eq_refl eq_refl) as [H _].
    exact H.
Defined.

(** Two CLOSE frames read in one iteration: both are decoded, one SIGHUP is
    delivered. *)
Lemma two_closes_one_hangup :
  frames [x03; x03] = [Close; Close]
  /\ count_close (frames [x03; x03]) = 2%nat
  /\ (decode_pass close_env 4242 3 ;;; decode_pass close_env 4242 3)
       (with_incoming [x03; x03])
     = (mk_state [] true [KStdin; KPty] [], Normal tt)
  /\ loop_body close_env (macros := LinuxWait) 4242 3 0 1 initial_state
     = (mk_state [] false [KStdin; KPty]
          [EvSelect [KStdin; KPty] [KStdin];
           EvRead 0 65536 (inr [x03; x03]);
           EvKill 4242 SIGHUP None;
           EvWaitpid 4242 WNOHANG (0, 0)],
        Normal tt)
  /\ sighups (trace (fst (loop_body close_env (macros := LinuxWait)
                            4242 3 0 1 initial_state)))
     <> count_close (frames [x03; x03]).
Proof.
  repeat split; try (vm_compute; reflexivity).
  vm_compute. discriminate.
Qed.

Lemma close_requests_witness :
  loop_body close_env (macros := LinuxWait) 4242 3 0 1 initial_state
  = (mk_state [] false [KStdin; KPty]
       [EvSelect [KStdin; KPty] [KStdin];
        EvRead 0 65536 (inr [x03; x03]);
        EvKill 4242 SIGHUP None;
        EvWaitpid 4242 WNOHANG (0, 0)],
     Normal tt).
Proof.
  assert (Hpid : 4242 <> 0) by discriminate.
  destruct (@close_requests_coalesce close_env LinuxWait 4242 3 0 1 Hpid)
    as (_ & _ & _ & Hiter).
  destruct (Hiter initial_state
              (mk_state [] true [KStdin; KPty]
                 [EvSelect [KStdin; KPty] [KStdin];
                  EvRead 0 65536 (inr [x03; x03])])
              eq_refl (or_introl eq_refl) eq_refl) as [H _].
  exact H.
Defined.

Lemma resize_frame_witness :
  fst (decode_pass quiet_env 4242 3
         (with_incoming [x02; x00; x50; x00; x18]))
  = mk_state [] false [KStdin; KPty]
      [EvIoctl 3 TIOCSWINSZ (mk_winsize 24 80 0 0);
       EvKill 4242 SIGWINCH None].
Proof.
  destruct (resize_frame_dispatch quiet_env 4242 3
              (with_incoming [x02; x00; x50; x00; x18])
              x02 x00 x50 x00 x18 [] eq_refl eq_refl) as [H _].
  exact H.
Defined.

Lemma pty_read_failure_witness :
  handle_key pty_error_env (macros := LinuxWait) 4242 3 0 1 KPty initial_state
  = (mk_state [] false [KStdin; KPty]
       [EvRead 3 65536 (inl OSError); EvWaitpid 4242 0 (4242, 9)],
     Return 137).
Proof.
  destruct (@pty_read_failure_is_eof pty_error_env LinuxWait 4242 3 0 1
              initial_state
              (or_intror (ex_intro _ OSError (conj eq_refl eq_refl))))
    as [H _].
  exact H.
Defined.


Lemma dead_child_witness :
  close_phase dead_child_env 4242 (mk_state [] true [KStdin; KPty] [])
  = (mk_state [] false [KStdin; KPty]
       [EvKill 4242 SIGHUP (Some ProcessLookupError)],
     Normal tt)
  /\ snd (main_loop dead_child_env (macros := LinuxWait) 4242 3 0 1 1
            initial_state)
     = Raise ProcessLookupError.
Proof.
  destruct (@dead_child_signal_tolerance dead_child_env LinuxWait 4242 3 0 1)
    as [Hclose Hresize].
  split.
  - apply Hclose; reflexivity.
  - destruct (Hresize
                (mk_state [x02; x00; x50; x00; x18] false [KStdin; KPty]
                   [EvSelect [KStdin; KPty] [KStdin];
                    EvRead 0 65536 (inr [x02; x00; x50; x00; x18])])
                x02 x00 x50 x00 x18 [] eq_refl eq_refl eq_refl)
      as (_ & _ & Hmain).
    apply (Hmain initial_state
             (mk_state [] false [KStdin; KPty]
                [EvSelect [KStdin; KPty] [KStdin]])
             [] [x02; x00; x50; x00; x18] 0%nat).
    + reflexivity.
    + reflexivity.
    + discriminate.
    + reflexivity.
Defined.

(** ** Further concrete runs *)

Lemma land_low_bits (s : Z) : 0 <= Z.land s 0x7f <= 127.
Proof.
  change (Z.land s 0x7f) with (Z.land s (Z.ones 7)).
  rewrite Z.land_ones by lia. change (2 ^ 7) with 128.
  pose proof (Z.mod_pos_bound s 128 ltac:(lia)). lia.
Qed.

Lemma exit_bits (s : Z) : 0 <= Z.shiftr (Z.land s 0xff00) 8 <= 255.
Proof.
  rewrite Z.shiftr_land. change (Z.shiftr 0xff00 8) with (Z.ones 8).
  rewrite Z.land_ones by lia. change (2 ^ 8) with 256.
  pose proof (Z.mod_pos_bound (Z.shiftr s 8) 256 ltac:(lia)). lia.
Qed.

Lemma linux_signaled_bits (s : Z) :
  @WIFSIGNALED LinuxWait s = true -> 1 <= Z.land s 0x7f <= 126.
Proof.
  simpl. pose proof (land_low_bits s) as Hb.
  set (t := Z.land s 127) in *. unfold signed_char. intros H.
  rewrite Z.mod_small in H by lia.
  apply Z.ltb_lt in H. rewrite Z.shiftr_div_pow2 in H by lia.
  change (2 ^ 1) with 2 in H.
  destruct (Z.ltb_spec (t + 1) 128) as [Hlt|Hge].
  - assert (t = 0 \/ 1 <= t) as [-> | Ht] by lia; [|lia].
    change ((0 + 1) / 2) with 0 in H. lia.
  - assert (t = 127) as -> by lia.
    change ((127 + 1 - 256) / 2) with (-64) in H. lia.
Qed.

(** X11: with the Linux layout of wait statuses, for every status that fits
    a C [int] the exit code fits in a byte, and the code of a death by
    signal lies between 129 and 254. *)
Theorem linux_exit_code_range (status : Z) :
  -2147483648 <= status <= 2147483647 ->
  0 <= @_exit_code_from_status LinuxWait status <= 255
  /\ (@WIFSIGNALED LinuxWait status = true ->
      129 <= @_exit_code_from_status LinuxWait status <= 254).
Proof.
  intros _.
  pose proof (land_low_bits status) as Hb.
  pose proof (exit_bits status) as He.
  pose proof (linux_signaled_bits status) as Hs.
  unfold _exit_code_from_status.
  destruct (@WIFSIGNALED LinuxWait status) eqn:Hsig.
  - specialize (Hs eq_refl).
    replace (@WIFEXITED LinuxWait status) with false
      by (symmetry; cbv [WIFEXITED LinuxWait]; apply Z.eqb_neq; lia).
    cbv [WTERMSIG LinuxWait]. split; [lia | intros _; lia].
  - destruct (@WIFEXITED LinuxWait status); cbv [WEXITSTATUS LinuxWait];
      (split; [lia | discriminate]).
Qed.

Lemma linux_exit_code_range_witness :
  0 <= @_exit_code_from_status LinuxWait 9 <= 255
  /\ (@WIFSIGNALED LinuxWait 9 = true ->
      129 <= @_exit_code_from_status LinuxWait 9 <= 254).
Proof.
  apply (linux_exit_code_range 9). split; discriminate.
Defined.

Lemma decode_loop_residue_witness :
  ([x01; x00] = [] \/ frame_incomplete [x01; x00])
  /\ decode_loop quiet_env 4242 3
       (mk_state [x01; x00] true [KStdin; KPty] [])
     = (mk_state [x01; x00] true [KStdin; KPty] [], Normal tt).
Proof.
  exact (proj2 (decode_loop_residue quiet_env 4242 3
                  (with_incoming [x03; x01; x00])
                  (mk_state [x01; x00] true [KStdin; KPty] [])
                  (Normal tt) eq_refl) eq_refl).
Defined.


Lemma data_frames_forwarded_witness :
  feed quiet_env 4242 3
       (data_frames [([x00; x00; x00; x01], [x61]);
                     ([x00; x00; x00; x00], []);
                     ([x00; x00; x00; x02], [x62; x63])])
       initial_state
  = (mk_state [] false [KStdin; KPty]
       [EvWrite 3 [x61]; EvWrite 3 [x62; x63]],
     Normal tt).
Proof.
  apply (data_frames_forwarded_in_order quiet_env 4242 3
           [([x00; x00; x00; x01], [x61]);
            ([x00; x00; x00; x00], []);
            ([x00; x00; x00; x02], [x62; x63])]
           initial_state).
  - repeat constructor.
  - reflexivity.
Defined.

Lemma pty_output_forwarded_witness :
  forwarded 3 1
    (fst (main_loop pty_only_env (macros := LinuxWait) 4242 3 0 1 2
            initial_state)).
Proof.
  assert (H1 : 0 <> 3) by discriminate.
  assert (H2 : 3 <> 1) by discriminate.
  exact (proj2 (@pty_output_forwarded pty_only_env LinuxWait 4242 3 0 1 2
                  H1 H2)).
Defined.

Lemma main_exit_code_witness :
  (len [String.EmptyString; String.EmptyString] < 2
   /\ 137 = 2
   /\ [EvSelect [KStdin; KPty] [KPty];
       EvRead 3 65536 (inl OSError);
       EvWaitpid 4242 0 (4242, 9)] = [])
  \/ (2 <= len [String.EmptyString; String.EmptyString]
      /\ @return_origin LinuxWait 4242 137
           [EvSelect [KStdin; KPty] [KPty];
            EvRead 3 65536 (inl OSError);
            EvWaitpid 4242 0 (4242, 9)]).
Proof.
  exact (@main_exit_code pty_error_env LinuxWait 4242 3 0 1
           [String.EmptyString; String.EmptyString] 1
           (mk_state [] false [KStdin; KPty]
              [EvSelect [KStdin; KPty] [KPty];
               EvRead 3 65536 (inl OSError);
               EvWaitpid 4242 0 (4242, 9)])
           137 eq_refl).
Defined.

Lemma return_skips_close_phase_witness :
  loop_body (const_env ReadyStdinPty [x03] (inr []) None 0 None)
            (macros := LinuxWait) 4242 3 0 1 initial_state
  = (mk_state [] true [KStdin; KPty]
       [EvSelect [KStdin; KPty] [KStdin; KPty];
        EvRead 0 65536 (inr [x03]);
        EvRead 3 65536 (inr []);
        EvWaitpid 4242 0 (4242, 0)],
     Return 0).
Proof.
  exact (proj1 (@return_skips_close_phase
                  (const_env ReadyStdinPty [x03] (inr []) None 0 None)
                  LinuxWait 4242 3 0 1 initial_state
                  (mk_state [] true [KStdin; KPty]
                     [EvSelect [KStdin; KPty] [KStdin; KPty];
                      EvRead 0 65536 (inr [x03]);
                      EvRead 3 65536 (inr []);
                      EvWaitpid 4242 0 (4242, 0)])
                  0 eq_refl)).
Defined.

Lemma reap_poll_ends_loop_witness :
  main_loop (const_env ReadyNone [] (inr []) None 0 (Some 256))
            (macros := LinuxWait) 4242 3 0 1 1 initial_state
  = (mk_state [] false [KStdin; KPty]
       [EvSelect [KStdin; KPty] [];
        EvWaitpid 4242 WNOHANG (4242, 256)],
     Return 1).
Proof.
  exact (@reap_poll_ends_loop
           (const_env ReadyNone [] (inr []) None 0 (Some 256))
           LinuxWait 4242 3 0 1 initial_state
           (mk_state [] false [KStdin; KPty] [EvSelect [KStdin; KPty] []])
           (mk_state [] false [KStdin; KPty] [EvSelect [KStdin; KPty] []])
           256 eq_refl eq_refl eq_refl 0%nat).
Defined.

Lemma decode_loop_struct_safe_witness :
  decode_loop quiet_env 4242 3 (with_incoming [x02; xff; xff; xff; xff])
  <> (mk_state [] false [KStdin; KPty] [], Raise StructError).
Proof.
  destruct (decode_loop_struct_safe quiet_env 4242 3) as (_ & _ & H).
  apply H. intros t pid sig. discriminate.
Defined.

Lemma unregister_never_fails_witness :
  main_loop pty_only_env (macros := LinuxWait) 4242 3 0 1 3 initial_state
  <> (initial_state, Raise KeyError).
Proof.
  apply (@unregister_never_fails pty_only_env LinuxWait 4242 3 0 1 3).
  intros [(t & fd & n & H) | (t & pid & sig & H)]; simpl in H.
  - destruct (fd =? 0); discriminate.
  - discriminate.
Defined.

Lemma control_stream_witness :
  incoming
    (fst (main_loop
            (chunked_env [[x01; x00]; [x00; x00; x02; x61];
                          [x62; x02; x00; x50]; [x00; x18; x03; x09; x01]])
            (macros := LinuxWait) 4242 3 0 1 5 initial_state))
  = rest_of [x01; x00; x00; x00; x02; x61; x62; x02; x00; x50; x00; x18;
             x03; x09; x01]
  /\ [EvWrite 3 [x61; x62]; EvIoctl 3 TIOCSWINSZ (mk_winsize 24 80 0 0)]
     = frame_effects 3
         (frames [x01; x00; x00; x00; x02; x61; x62; x02; x00; x50; x00; x18;
                  x03; x09; x01]).
Proof.
  assert (H1 : 0 <> 3) by discriminate.
  assert (H2 : 3 <> 1) by discriminate.
  destruct (@control_stream_determines_effects
              (chunked_env [[x01; x00]; [x00; x00; x02; x61];
                            [x62; x02; x00; x50]; [x00; x18; x03; x09; x01]])
              LinuxWait 4242 3 0 1 5 H1 H2) as [_ Hrun].
  apply (Hrun
           (fst (main_loop
                   (chunked_env [[x01; x00]; [x00; x00; x02; x61];
                                 [x62; x02; x00; x50];
                                 [x00; x18; x03; x09; x01]])
                   (macros := LinuxWait) 4242 3 0 1 5 initial_state))
           OutOfFuel).
  - vm_compute. reflexivity.
  - intros e. discriminate.
Defined.
